(** * 5G-measurement: fragment tracking and latency decomposition

    A shallow embedding of the testbed UDP/TCP latency clients and servers
    ([testbed-5G-latency/dl-latency-udp], [testbed-5G-latency/dl-latency-tcp])
    and of the trigger-driven sender of
    [commerical-5G-latency-decompose/multiple-packet-dl-decompose/aws_server.cpp].

    Conventions.
    - A [uint32_t] / [uint64_t] value is a [Z] in [0, 2^32) / [0, 2^64); the
      wrap-around of an unsigned subtraction is written out with [mod].
    - An [int] is a [Z] in [-2^31, 2^31); the conversion of a [uint32_t] to an
      [int] (as done when a [uint32_t] indexes a [std::map<int, _>]) is
      [int_of_u32].
    - A [std::map<int, V>] is a [gmap Z V] keyed by the [int] value; where the
      iteration order matters ([write_results]) the entries are listed in
      ascending key order.
    - The clock and the socket are the environment: receive times and the
      return values of [recv]/[recvfrom] are inputs of the model. *)

From Stdlib Require Import ZArith List Lia Bool Sorting.Sorted.
From stdpp Require Import gmap list sorting.

Open Scope Z_scope.

(** ** Machine integers *)

Definition INT_MAX : Z := 2147483647.
Definition UINT32_MOD : Z := 4294967296.
Definition UINT64_MOD : Z := 18446744073709551616.

Definition is_u32 (z : Z) : Prop := 0 <= z < UINT32_MOD.
Definition is_u64 (z : Z) : Prop := 0 <= z < UINT64_MOD.
Definition is_int (z : Z) : Prop := - INT_MAX - 1 <= z <= INT_MAX.

(** [static_cast<int>(u)] for a [uint32_t u] (two's complement). *)
Definition int_of_u32 (u : Z) : Z :=
  if u <=? INT_MAX then u else u - UINT32_MOD.

(** [static_cast<uint32_t>(i)] for an [int i]. *)
Definition u32_of_int (i : Z) : Z := i mod UINT32_MOD.

(** [a - b] on [uint64_t]. *)
Definition sub_u64 (a b : Z) : Z := (a - b) mod UINT64_MOD.

(** Entries of a [std::map<int, V>] in iteration (ascending key) order. *)
Definition key_le {V} (x y : Z * V) : Prop := x.1 <= y.1.

#[global] Instance key_le_dec {V} (x y : Z * V) : Decision (key_le x y) :=
  Z_le_dec x.1 y.1.

Definition map_entries {V} (m : gmap Z V) : list (Z * V) :=
  merge_sort key_le (map_to_list m).

(** ** The UDP pair (datagram transport)
    [testbed-5G-latency/dl-latency-udp/server.cpp] (Fragment Emitter) and
    [testbed-5G-latency/dl-latency-udp/client.cpp] (Fragment Tracker) *)

Module Udp.

(** [#define MAX_PACKET_SIZE 1400] *)
Definition MAX_PACKET_SIZE : Z := 1400.

(** [struct Packet], the same in both programs; the contents of the [data]
    buffer play no role in sequencing or tracking. *)
Record Packet := mkPacket {
  timestamp : Z;
  packet_id : Z;
  total_packets : Z;
  request_id : Z;
  total_requests : Z;
  data_size : Z
}.

Definition wf_packet (p : Packet) : Prop :=
  is_u64 (timestamp p) /\ is_u32 (packet_id p) /\ is_u32 (total_packets p) /\
  is_u32 (request_id p) /\ is_u32 (total_requests p) /\ is_u32 (data_size p).

(** [struct RequestStats] with its default member initialisers. *)
Record RequestStats := mkRequestStats {
  first_packet_send_time : Z;
  first_packet_recv_time : Z;
  last_packet_recv_time : Z;
  is_complete : bool;
  received_packets : gmap Z bool
}.

Definition RequestStats0 : RequestStats :=
  mkRequestStats 0 0 0 false ∅.

(** The globals [running], [requests] and the locals [highest_request_id],
    [total_requests] of [main] (the latter as [main_total_requests]). *)
Record State := mkState {
  running : bool;
  requests : gmap Z RequestStats;
  highest_request_id : Z;
  main_total_requests : Z
}.

Definition init : State := mkState true ∅ 0 0.

(** [requests.find(i) != requests.end() && requests[i].is_complete] *)
Definition request_complete (reqs : gmap Z RequestStats) (i : Z) : bool :=
  match reqs !! int_of_u32 i with
  | Some st => is_complete st
  | None => false
  end.

(** The [for (uint32_t i = 0; i < total_requests; i++)] scan of lines 199-205. *)
Definition all_complete (reqs : gmap Z RequestStats) (total : Z) : bool :=
  forallb (request_complete reqs) (seqZ 0 total).

(** Lines 174-195: the update of [requests[request_id]] for one packet. *)
Definition record_packet (st : RequestStats) (packet : Packet) (recv_time : Z)
  : RequestStats :=
  let received := <[int_of_u32 (packet_id packet) := true]> (received_packets st) in
  let first_send :=
    if packet_id packet =? 0 then timestamp packet else first_packet_send_time st in
  let first_recv :=
    if packet_id packet =? 0 then recv_time else first_packet_recv_time st in
  let complete :=
    if Z.of_nat (size received) =? total_packets packet then true else is_complete st in
  mkRequestStats first_send first_recv recv_time complete received.

(** Lines 153-211: the body of the receive loop for one received packet. *)
Definition observe (s : State) (packet : Packet) (recv_time : Z) : State :=
  let total :=
    if (main_total_requests s =? 0) || (total_requests packet >? main_total_requests s)
    then total_requests packet else main_total_requests s in
  let highest :=
    if request_id packet >? highest_request_id s
    then request_id packet else highest_request_id s in
  let key := int_of_u32 (request_id packet) in
  let st := default RequestStats0 (requests s !! key) in
  let reqs := <[key := record_packet st packet recv_time]> (requests s) in
  let run :=
    if (0 <? total) && (highest =? total - 1) && all_complete reqs total
    then false else running s in
  mkState run reqs highest total.

(** One row of the results file. *)
Record Row := mkRow {
  row_request_id : Z;
  first_packet_latency : Z;
  last_to_first_diff : Z
}.

(** The row computed in the body of the loop of [write_results]. *)
Definition row_of (pair : Z * RequestStats) : Row :=
  let stats := pair.2 in
  mkRow (u32_of_int pair.1)
        (sub_u64 (first_packet_recv_time stats) (first_packet_send_time stats))
        (sub_u64 (last_packet_recv_time stats) (first_packet_recv_time stats)).

(** [write_results], lines 63-74: the rows written after the header line,
    one for every entry of [requests]. *)
Definition write_results (reqs : gmap Z RequestStats) : list Row :=
  row_of <$> map_entries reqs.

(** What [recvfrom] and the signal handler present to the loop. *)
Inductive Event :=
| RecvFailed                                   (* timeout or error: [continue] *)
| Sigint                                       (* the handler clears [running] *)
| Datagram (packet : Packet) (recv_time : Z).

(** One iteration of [while (running)], with the files written during it. *)
Definition loop_body (s : State) (e : Event) : State * list (list Row) :=
  match e with
  | RecvFailed => (s, [])
  | Sigint => (mkState false (requests s) (highest_request_id s) (main_total_requests s), [])
  | Datagram packet recv_time =>
      let s' := observe s packet recv_time in
      (s', if request_id packet mod 10 =? 9 then [write_results (requests s')] else [])
  end.

(** The receive loop over a script of events; it stops consuming events as
    soon as [running] is false. *)
Fixpoint receive_loop (s : State) (evs : list Event) : State * list (list Row) :=
  match evs with
  | [] => (s, [])
  | e :: evs' =>
      if running s then
        let '(s1, w1) := loop_body s e in
        let '(s2, w2) := receive_loop s1 evs' in
        (s2, w1 ++ w2)
      else (s, [])
  end.

(** All packets of a list observed in arrival order. *)
Definition observe_all (s : State) (arrivals : list (Packet * Z)) : State :=
  fold_left (fun s a => observe s a.1 a.2) arrivals s.

(** The session-completion condition in the words of the specification. *)
Definition session_complete (s : State) : Prop :=
  0 < main_total_requests s /\
  forall i, 0 <= i < main_total_requests s ->
    exists st, requests s !! int_of_u32 i = Some st /\ is_complete st = true.

(** *** The emitter, [send_request] of server.cpp

    The macro's value is a parameter of [send_request_sized], so that the
    splitting can be stated for any fragment capacity; [send_request] is the
    program's instance. *)
Section Emitter.

Variable max_packet_size : Z.

(** Lines 34-48: the loop preparing [packets[i]] for [i], [i+1], ...; [n]
    iterations remain. The vector's elements are value-initialised, so
    [timestamp] is [0] until the packet is sent. [bytes_remaining] is an
    [int] and [data_size] a [uint32_t]: the subtraction is done on
    [unsigned] and converted back. *)
Fixpoint prepare (n : nat) (i bytes_remaining total_packets request_id total_requests : Z)
  : list Packet :=
  match n with
  | O => []
  | S n' =>
      let data_size :=
        u32_of_int (if bytes_remaining >? max_packet_size
                    then max_packet_size else bytes_remaining) in
      let bytes_remaining' :=
        int_of_u32 ((bytes_remaining - data_size) mod UINT32_MOD) in
      mkPacket 0 (u32_of_int i) (u32_of_int total_packets) (u32_of_int request_id)
               (u32_of_int total_requests) data_size
      :: prepare n' (i + 1) bytes_remaining' total_packets request_id total_requests
  end.

(** Lines 51-65: each packet is stamped right before it is sent; [clock k]
    is the time read before the [k]-th send. The result lists the packets
    handed to [sendto], in order. *)
Definition send_all (clock : nat -> Z) (packets : list Packet) : list Packet :=
  imap (fun k p => mkPacket (clock k) (packet_id p) (total_packets p) (request_id p)
                            (total_requests p) (data_size p)) packets.

(** [send_request]. [None] stands for undefined behaviour (signed overflow
    of [bytes_to_send + MAX_PACKET_SIZE]) and for the exception thrown by
    the vector's constructor on a negative count. *)
Definition send_request_sized (clock : nat -> Z)
    (bytes_to_send request_id total_requests : Z) : option (list Packet) :=
  if bytes_to_send + max_packet_size <=? INT_MAX then
    let total_packets := Z.quot (bytes_to_send + max_packet_size - 1) max_packet_size in
    if total_packets <? 0 then None
    else Some (send_all clock
                 (prepare (Z.to_nat total_packets) 0 bytes_to_send
                          total_packets request_id total_requests))
  else None.

End Emitter.

Definition send_request := send_request_sized MAX_PACKET_SIZE.

(** [main] of server.cpp, lines 105-113: requests [i], [i+1], ... are sent
    one after the other, [n] of them remain; [clock i k] is the time read
    before the [k]-th send of request [i]. The result lists every packet
    handed to [sendto], in order; it is [None] when a [send_request] does
    not return. *)
Fixpoint send_requests (clock : nat -> nat -> Z) (bytes_to_send num_requests i : Z)
    (n : nat) : option (list Packet) :=
  match n with
  | O => Some []
  | S n' =>
      match send_request (clock (Z.to_nat i)) bytes_to_send i num_requests with
      | None => None
      | Some sent =>
          match send_requests clock bytes_to_send num_requests (i + 1) n' with
          | None => None
          | Some rest => Some (sent ++ rest)
          end
      end
  end.

Definition server_main (clock : nat -> nat -> Z) (bytes_to_send num_requests : Z)
  : option (list Packet) :=
  send_requests clock bytes_to_send num_requests 0 (Z.to_nat num_requests).

(** [main] of client.cpp from the receive loop on: the rows of the final
    results file, written once the loop has ended; [None] while the loop is
    still waiting at the end of the script. *)
Definition client_main (evs : list Event) : option (list Row) :=
  let s := (receive_loop init evs).1 in
  if running s then None else Some (write_results (requests s)).

End Udp.

(** ** The TCP client (stream transport)
    [testbed-5G-latency/dl-latency-tcp/client.cpp] *)

Module Tcp.

(** [struct RequestHeader] *)
Record RequestHeader := mkRequestHeader {
  timestamp : Z;
  request_id : Z;
  total_requests : Z;
  data_size : Z
}.

(** [struct RequestStats] *)
Record RequestStats := mkRequestStats {
  send_time : Z;
  header_recv_time : Z;
  data_complete_time : Z;
  is_complete : bool
}.

(** The global [running], [requests] and the locals of [main]. *)
Record State := mkState {
  running : bool;
  requests : gmap Z RequestStats;
  start_time : Z;
  end_time : Z;
  total_requests_received : Z;
  expected_total_requests : Z
}.

Definition init : State := mkState true ∅ 0 0 0 0.

(** [recv(fd, buf, len, 0)] when the transport has [offered] bytes ready
    ([0]: the peer closed, negative: error): at most [len] bytes are read. *)
Definition recv (offered len : Z) : Z := Z.min offered len.

(** Lines 174-187: the payload loop. [reads] is what the transport offers to
    the successive [recv] calls; after the last one the peer has closed.
    Returns [remaining] and [total_received] at loop exit. *)
Fixpoint recv_data (reads : list Z) (remaining total_received : Z) : Z * Z :=
  if remaining >? 0 then
    match reads with
    | [] => (remaining, total_received)
    | offered :: reads' =>
        let bytes_received := recv offered remaining in
        if bytes_received <=? 0 then (remaining, total_received)
        else recv_data reads' (remaining - bytes_received)
                       (total_received + bytes_received)
    end
  else (remaining, total_received).

(** What the socket and the clock present while one request is read. *)
Record RequestIO := mkRequestIO {
  header_bytes : Z;              (* return value of the header [recv] *)
  header : RequestHeader;        (* the header buffer after it *)
  io_header_recv_time : Z;       (* clock read after the header *)
  data_reads : list Z;           (* offered to the payload [recv] calls *)
  io_data_complete_time : Z      (* clock read after the payload loop *)
}.

(** Lines 151-232: one iteration of the per-connection loop. The boolean is
    [false] when the iteration ends in [break]. *)
Definition handle_request (s : State) (io : RequestIO) : State * bool :=
  if header_bytes io <=? 0 then (s, false)
  else
    let hdr := header io in
    let '(remaining, total_received) :=
      recv_data (data_reads io) (int_of_u32 (data_size hdr)) 0 in
    if remaining >? 0 then (s, false)
    else
      let first := total_requests_received s =? 0 in
      let start := if first then io_header_recv_time io else start_time s in
      let expected := if first then total_requests hdr else expected_total_requests s in
      let reqs :=
        <[int_of_u32 (request_id hdr) :=
            mkRequestStats (timestamp hdr) (io_header_recv_time io)
                           (io_data_complete_time io) true]> (requests s) in
      let received := (total_requests_received s + 1) mod UINT32_MOD in
      if (expected >? 0) && (received >=? expected)
      then (mkState false reqs start (io_data_complete_time io) received expected, false)
      else (mkState (running s) reqs start (io_data_complete_time io) received expected, true).

(** Lines 150-233: the requests of one connection; after the last scripted
    one the header [recv] returns 0 (client disconnected). *)
Fixpoint connection_loop (s : State) (ios : list RequestIO) : State :=
  match ios with
  | [] => s
  | io :: ios' =>
      if running s then
        let '(s', continue) := handle_request s io in
        if continue then connection_loop s' ios' else s'
      else s
  end.

(** Lines 133-236: the accept loop; [None] is a failed [accept]. *)
Fixpoint accept_loop (s : State) (conns : list (option (list RequestIO))) : State :=
  match conns with
  | [] => s
  | c :: conns' =>
      if running s then
        accept_loop (match c with
                     | None => s
                     | Some ios => connection_loop s ios
                     end) conns'
      else s
  end.

Record Row := mkRow {
  row_request_id : Z;
  transmission_delay : Z;
  data_reception_duration : Z
}.

(** [write_results], lines 57-70: a row is written for the entries whose
    [is_complete] is set. *)
Definition row_of (pair : Z * RequestStats) : Row :=
  let stats := pair.2 in
  mkRow (u32_of_int pair.1)
        (sub_u64 (header_recv_time stats) (send_time stats))
        (sub_u64 (data_complete_time stats) (header_recv_time stats)).

Definition write_results (reqs : gmap Z RequestStats) : list Row :=
  row_of <$> filter (fun pair : Z * RequestStats => is_complete pair.2 = true)
                    (map_entries reqs).

(** [main] from the accept loop on: the rows of the final results file. *)
Definition main (conns : list (option (list RequestIO))) : list Row :=
  write_results (requests (accept_loop init conns)).

(** [send_request] of server.cpp: the header handed to the first [send] and
    the number of payload bytes handed to the second; [now] is the time read
    before the header is sent. [None] stands for the exception thrown by
    [new char[bytes_to_send]] on a negative size. *)
Definition send_request (now bytes_to_send request_id total_requests : Z)
  : option (RequestHeader * Z) :=
  if bytes_to_send <? 0 then None
  else Some (mkRequestHeader now (u32_of_int request_id) (u32_of_int total_requests)
                             (u32_of_int bytes_to_send),
             bytes_to_send).

(** [main] of server.cpp, lines 107-115: what is sent for requests [i],
    [i+1], ..., [n] of them remaining; [clock i] is the time read for
    request [i]. *)
Fixpoint send_requests (clock : nat -> Z) (bytes_to_send num_requests i : Z) (n : nat)
  : option (list (RequestHeader * Z)) :=
  match n with
  | O => Some []
  | S n' =>
      match send_request (clock (Z.to_nat i)) bytes_to_send i num_requests with
      | None => None
      | Some sent =>
          match send_requests clock bytes_to_send num_requests (i + 1) n' with
          | None => None
          | Some rest => Some (sent :: rest)
          end
      end
  end.

Definition server_main (clock : nat -> Z) (bytes_to_send num_requests : Z)
  : option (list (RequestHeader * Z)) :=
  send_requests clock bytes_to_send num_requests 0 (Z.to_nat num_requests).

End Tcp.

(** ** The trigger-driven sender
    [send_data_to_phone] of aws_server.cpp *)

Module Aws.

(** The string literal ["TRIG"], with its terminator. *)
Definition TRIG : list Z := [84; 82; 73; 71; 0].

(** [strncmp] on character codes; a list that ends is read as terminated. *)
Fixpoint strncmp (s1 s2 : list Z) (n : nat) : Z :=
  match n with
  | O => 0
  | S n' =>
      let c1 := hd 0 s1 in
      let c2 := hd 0 s2 in
      if c1 =? c2 then
        if c1 =? 0 then 0 else strncmp (tl s1) (tl s2) n'
      else c1 - c2
  end.

(** What one pass through the loop head and [recv] presents. *)
Record TriggerRead := mkTriggerRead {
  running : bool;              (* the flag when the loop condition is tested *)
  bytes_received : Z;          (* return value of [recv] *)
  trigger_buffer : list Z;     (* the four bytes of the buffer after it *)
  current_time : Z             (* bits of [get_current_time()] *)
}.

(** The calls to [send]: the 12-byte header (timestamp, payload size) and
    the payload. *)
Inductive Sent :=
| SendHeader (time_bits size : Z)
| SendPayload (len : Z).

(** Lines 117-158. Returns what was sent and the final [requests_sent];
    after the last scripted read the connection is closed. *)
Fixpoint send_data_to_phone (num_requests bytes_per_request requests_sent : Z)
    (reads : list TriggerRead) : list Sent * Z :=
  match reads with
  | [] => ([], requests_sent)
  | r :: reads' =>
      if (requests_sent <? num_requests) && running r then
        if bytes_received r <=? 0 then ([], requests_sent)
        else if negb (bytes_received r =? 4)
                || negb (strncmp (trigger_buffer r) TRIG 4 =? 0)
        then send_data_to_phone num_requests bytes_per_request requests_sent reads'
        else
          let sends :=
            SendHeader (current_time r) bytes_per_request
            :: (if bytes_per_request >? 0 then [SendPayload bytes_per_request] else []) in
          let '(more, n) :=
            send_data_to_phone num_requests bytes_per_request (requests_sent + 1) reads' in
          (sends ++ more, n)
      else ([], requests_sent)
  end.

(** The reads that carry the token. *)
Definition is_trigger (r : TriggerRead) : bool :=
  (bytes_received r =? 4) && (strncmp (trigger_buffer r) TRIG 4 =? 0).

Definition is_header (x : Sent) : bool :=
  match x with SendHeader _ _ => true | SendPayload _ => false end.

(** [memcpy(dst + off, src, length src)] on a buffer held as a list. *)
Definition memcpy (dst : list Z) (off : nat) (src : list Z) : list Z :=
  take off dst ++ src ++ drop (off + length src) dst.

(** Lines 67-91 of [handle_pc_client]: the bytes handed to [send] for one
    request. [buffer] is the receive buffer after [recv] returned
    [bytes_received], [response] the response array as it is found (it is
    not initialised), [current_time] the eight bytes of the timestamp. *)
Definition pc_response (response buffer current_time : list Z) (bytes_received : Z)
  : list Z :=
  let data_size := bytes_received in
  let response := memcpy response 0 current_time in
  if data_size <=? 8 then take 8 response
  else
    let padding_size := Z.to_nat (data_size - 8) in
    let response :=
      if bytes_received >? 8
      then memcpy response 8 (take padding_size (drop 8 buffer))
      else memcpy response 8 (replicate padding_size 0) in
    take (Z.to_nat data_size) response.

(** What one pass through the loop of [handle_pc_client] meets. *)
Record PcRead := mkPcRead {
  pc_running : bool;             (* the flag when the loop condition is tested *)
  pc_bytes_received : Z;         (* return value of [recv] *)
  pc_buffer : list Z;            (* the receive buffer after it *)
  pc_response_array : list Z;    (* the response array as found *)
  pc_current_time : list Z       (* the bytes of [get_current_time()] *)
}.

(** Lines 59-95: the responses sent on one connection; after the last
    scripted read the connection is closed. *)
Fixpoint handle_pc_client (reads : list PcRead) : list (list Z) :=
  match reads with
  | [] => []
  | r :: reads' =>
      if pc_running r then
        if pc_bytes_received r <=? 0 then []
        else pc_response (pc_response_array r) (pc_buffer r) (pc_current_time r)
                         (pc_bytes_received r)
             :: handle_pc_client reads'
      else []
  end.

(** [ntohl] of the [uint32_t] held in four bytes of memory: their
    big-endian value. *)
Definition ntohl_bytes (bytes : list Z) : Z :=
  nth 0 bytes 0 * 16777216 + nth 1 bytes 0 * 65536 + nth 2 bytes 0 * 256
  + nth 3 bytes 0.

(** The four bytes in memory of [htonl u] for a [uint32_t u]: its
    big-endian digits. *)
Definition htonl_bytes (u : Z) : list Z :=
  [u / 16777216 mod 256; u / 65536 mod 256; u / 256 mod 256; u mod 256].

(** The eight bytes in memory of [htobe64 bits]. *)
Definition htobe64_bytes (bits : Z) : list Z :=
  htonl_bytes (bits / 4294967296 mod 4294967296) ++ htonl_bytes (bits mod 4294967296).

(** Lines 141-147 of [send_data_to_phone]: the twelve bytes of the header
    that [SendHeader time_bits size] stands for. *)
Definition header_wire (time_bits bytes_per_request : Z) : list Z :=
  htobe64_bytes time_bits ++ htonl_bytes (u32_of_int bytes_per_request).

(** What [handle_phone_client] sends. *)
Inductive PhoneSent :=
| SendAck                       (* the three bytes ["ACK"] *)
| SendData (x : Sent).

(** Lines 181-214 of [handle_phone_client]: the parameters are read, decoded
    and acknowledged, then the requests are sent on triggers.
    [bytes_received] and [param_bytes] are the result of the first [recv]. *)
Definition handle_phone_client (bytes_received : Z) (param_bytes : list Z)
    (reads : list TriggerRead) : list PhoneSent :=
  if negb (bytes_received =? 12) then []
  else
    let num_requests := int_of_u32 (ntohl_bytes (take 4 param_bytes)) in
    let bytes_per_request := int_of_u32 (ntohl_bytes (take 4 (drop 8 param_bytes))) in
    SendAck :: (SendData <$> (send_data_to_phone num_requests bytes_per_request 0 reads).1).

End Aws.

(** ** Vocabulary of the statements *)

(** The record a fragment of request [request_id p] meets in the datagram
    tracker: the stored one, or a fresh [RequestStats] when the request is
    new. *)
Definition current_record (s : Udp.State) (p : Udp.Packet) : Udp.RequestStats :=
  default Udp.RequestStats0 (Udp.requests s !! int_of_u32 (Udp.request_id p)).

(** The record of the packet's request after [observe]. *)
Definition observed_record (s : Udp.State) (p : Udp.Packet) (t : Z) : Udp.RequestStats :=
  Udp.record_packet (current_record s p) p t.

(** A well-formed arrival that names a request below the total it declares. *)
Definition in_session (a : Udp.Packet * Z) : Prop :=
  Udp.wf_packet a.1 /\ Udp.request_id a.1 < Udp.total_requests a.1.

(** What the datagram tracker maintains on such arrivals. *)
Definition tracker_inv (s : Udp.State) : Prop :=
  0 <= Udp.highest_request_id s /\
  ((Udp.main_total_requests s = 0 /\ Udp.highest_request_id s = 0) \/
   Udp.highest_request_id s < Udp.main_total_requests s) /\
  forall k, is_Some (Udp.requests s !! k) ->
    exists id, is_u32 id /\ k = int_of_u32 id /\ id <= Udp.highest_request_id s.

(** The largest [total_requests] among the observed fragments. *)
Definition max_total_requests (arrivals : list (Udp.Packet * Z)) : Z :=
  foldr (fun a m => Z.max (Udp.total_requests a.1) m) 0 arrivals.

(** The byte count carried by a list of packets. *)
Definition payload_bytes (packets : list Udp.Packet) : Z :=
  foldr (fun p acc => Udp.data_size p + acc) 0 packets.

(** What the [k]-th of [n] fragments of a [bytes]-byte request carries when
    a fragment holds at most [M] bytes. *)
Definition fragment_size (M bytes n k : Z) : Z :=
  if k <? n - 1 then M else bytes - (n - 1) * M.

(** Bytes the stream transport delivers before it closes or fails. *)
Fixpoint bytes_before_close (reads : list Z) : Z :=
  match reads with
  | [] => 0
  | offered :: reads' =>
      if offered <=? 0 then 0 else offered + bytes_before_close reads'
  end.


(** The four characters of the trigger token. *)
Definition trigger_token : list Z := [84; 82; 73; 71].

(** The arrivals that belong to request [r] of the datagram tracker. *)
Definition request_arrivals (r : Z) (arrivals : list (Udp.Packet * Z))
  : list (Udp.Packet * Z) :=
  filter (fun a => int_of_u32 (Udp.request_id a.1) = int_of_u32 r) arrivals.

(** The fragment indices among some arrivals, as the keys the tracker uses. *)
Definition received_ids (arrivals : list (Udp.Packet * Z)) : gset Z :=
  list_to_set ((fun a => int_of_u32 (Udp.packet_id a.1)) <$> arrivals).

(** The request ids among some arrivals, as the keys the tracker uses. *)
Definition request_keys (arrivals : list (Udp.Packet * Z)) : gset Z :=
  list_to_set ((fun a => int_of_u32 (Udp.request_id a.1)) <$> arrivals).

(** One record updated by a list of arrivals. *)
Definition record_all (st : Udp.RequestStats) (arrivals : list (Udp.Packet * Z))
  : Udp.RequestStats :=
  fold_left (fun st a => Udp.record_packet st a.1 a.2) arrivals st.

(** How [is_complete] relates to the received set when every fragment of
    the request declares [n] fragments. *)
Definition complete_inv (n : Z) (st : Udp.RequestStats) : Prop :=
  Udp.is_complete st = true <->
  1 <= n <= Z.of_nat (size (Udp.received_packets st)).

(** The arrivals that the receive loop processes when it starts in [s]:
    those up to and including the first one that clears [running]. *)
Fixpoint processed (s : Udp.State) (arrivals : list (Udp.Packet * Z))
  : list (Udp.Packet * Z) :=
  match arrivals with
  | [] => []
  | a :: arrivals' =>
      if Udp.running s then a :: processed (Udp.observe s a.1 a.2) arrivals' else []
  end.

(** The datagrams of a list of arrivals, as events of the receive loop. *)
Definition datagrams (arrivals : list (Udp.Packet * Z)) : list Udp.Event :=
  (fun a => Udp.Datagram a.1 a.2) <$> arrivals.

(** The largest request id among some arrivals. *)
Definition max_request_id (arrivals : list (Udp.Packet * Z)) : Z :=
  foldr (fun a m => Z.max (Udp.request_id a.1) m) 0 arrivals.

(** A packet of a session of [num] requests of [n] fragments each. *)
Definition session_packet (num n : Z) (p : Udp.Packet) : Prop :=
  0 <= Udp.request_id p < num /\ 0 <= Udp.packet_id p < n /\
  Udp.total_packets p = n /\ Udp.total_requests p = num.

(** A request of the stream sender reaches the stream tracker in full. *)
Definition delivered (sent : Tcp.RequestHeader * Z) (io : Tcp.RequestIO) : Prop :=
  Tcp.header io = sent.1 /\ 0 < Tcp.header_bytes io /\
  sent.2 <= bytes_before_close (Tcp.data_reads io).

(** What the stream tracker maintains about its counters when every header
    declares a positive total. *)
Definition counter_inv (s : Tcp.State) : Prop :=
  0 <= Tcp.total_requests_received s < UINT32_MOD /\
  0 <= Tcp.expected_total_requests s < UINT32_MOD /\
  Z.of_nat (size (Tcp.requests s)) <= Tcp.total_requests_received s /\
  (Tcp.total_requests_received s = 0 -> Tcp.running s = true) /\
  (0 < Tcp.total_requests_received s -> 0 < Tcp.expected_total_requests s) /\
  (Tcp.running s = false ->
     Tcp.total_requests_received s = Tcp.expected_total_requests s) /\
  (Tcp.running s = true -> 0 < Tcp.total_requests_received s ->
     Tcp.total_requests_received s < Tcp.expected_total_requests s).

(** A header of the stream transport that declares a positive total. *)
Definition declares_total (io : Tcp.RequestIO) : Prop :=
  0 < Tcp.total_requests (Tcp.header io) < UINT32_MOD.

(** The record the stream tracker keeps of a request sent at [now]. *)
Definition stats_of (now : Z) (io : Tcp.RequestIO) : Tcp.RequestStats :=
  Tcp.mkRequestStats now (Tcp.io_header_recv_time io) (Tcp.io_data_complete_time io) true.

(** Every recorded request of the stream tracker is complete. *)
Definition all_recorded_complete (s : Tcp.State) : Prop :=
  forall k st, Tcp.requests s !! k = Some st -> Tcp.is_complete st = true.

(** The stream tracker's map holds exactly the records of the requests
    [served], the [j]-th under request id [j], sent at [clock j]. *)
Definition recorded (clock : nat -> Z) (served : list Tcp.RequestIO)
    (reqs : gmap Z Tcp.RequestStats) : Prop :=
  forall k st, reqs !! k = Some st <->
    exists j io, served !! j = Some io /\ k = Z.of_nat j /\ st = stats_of (clock j) io.

(** The row of the [j]-th request of a stream session: its id, the delay
    between the send time and the arrival of the header, and the time the
    payload took after that. *)
Definition row_for (clock : nat -> Z) (j : nat) (io : Tcp.RequestIO) : Tcp.Row :=
  Tcp.mkRow (Z.of_nat j)
            (sub_u64 (Tcp.io_header_recv_time io) (clock j))
            (sub_u64 (Tcp.io_data_complete_time io) (Tcp.io_header_recv_time io)).

(** What one request of a timestamp client is answered with: the timestamp
    alone for a request of at most eight bytes, otherwise the timestamp
    followed by the request's own bytes from the ninth on. *)
Definition pc_echo (r : Aws.PcRead) : list Z :=
  if Aws.pc_bytes_received r <=? 8 then Aws.pc_current_time r
  else Aws.pc_current_time r
       ++ take (Z.to_nat (Aws.pc_bytes_received r - 8)) (drop 8 (Aws.pc_buffer r)).

(** The arrays of a read have the sizes the code declares, and [recv]
    returned no more than the buffer holds. *)
Definition pc_sized (r : Aws.PcRead) : Prop :=
  length (Aws.pc_buffer r) = 2048%nat /\ length (Aws.pc_response_array r) = 2048%nat /\
  length (Aws.pc_current_time r) = 8%nat /\ Aws.pc_bytes_received r <= 2048.

(** The requests a timestamp connection serves: those before the first
    read at which the server is stopped or the connection is closed. *)
Fixpoint pc_served (reads : list Aws.PcRead) : list Aws.PcRead :=
  match reads with
  | [] => []
  | r :: reads' =>
      if Aws.pc_running r && (0 <? Aws.pc_bytes_received r)
      then r :: pc_served reads' else []
  end.

(** The reads the trigger loop can reach: those before the first one at
    which the sender is stopped or the connection is closed. *)
Definition live (r : Aws.TriggerRead) : bool :=
  Aws.running r && (0 <? Aws.bytes_received r).

Fixpoint live_prefix (reads : list Aws.TriggerRead) : list Aws.TriggerRead :=
  match reads with
  | [] => []
  | r :: reads' => if live r then r :: live_prefix reads' else []
  end.

(** The header and payload sent for one request. *)
Definition request_block (bytes_per_request time_bits : Z) : list Aws.Sent :=
  Aws.SendHeader time_bits bytes_per_request
  :: (if bytes_per_request >? 0 then [Aws.SendPayload bytes_per_request] else []).

(** The triggers answered when [budget] requests may still be sent. *)
Definition answered (budget : Z) (reads : list Aws.TriggerRead) : list Z :=
  take (Z.to_nat budget)
       (Aws.current_time <$> filter (fun r => Aws.is_trigger r = true) (live_prefix reads)).

(** * Properties *)

(** ** Machine integers and map entries *)

Lemma int_of_u32_small u : 0 <= u <= INT_MAX -> int_of_u32 u = u.
Proof. unfold int_of_u32. intros H. destruct (Z.leb_spec u INT_MAX); lia. Qed.

Lemma int_of_u32_inj u v : is_u32 u -> is_u32 v -> int_of_u32 u = int_of_u32 v -> u = v.
Proof.
  unfold is_u32, int_of_u32, UINT32_MOD, INT_MAX. intros Hu Hv.
  destruct (Z.leb_spec u 2147483647), (Z.leb_spec v 2147483647); lia.
Qed.

Lemma u32_of_int_of_u32 u : is_u32 u -> u32_of_int (int_of_u32 u) = u.
Proof.
  unfold is_u32, u32_of_int, int_of_u32, UINT32_MOD, INT_MAX. intros Hu.
  destruct (Z.leb_spec u 2147483647).
  - apply Z.mod_small. lia.
  - replace (u - 4294967296) with (u + (-1) * 4294967296) by lia.
    rewrite Z.mod_add by lia. apply Z.mod_small. lia.
Qed.

Lemma map_entries_perm {V} (m : gmap Z V) : map_entries m ≡ₚ map_to_list m.
Proof. unfold map_entries. apply merge_sort_Permutation. Qed.

Lemma elem_of_map_entries {V} (m : gmap Z V) k v :
  (k, v) ∈ map_entries m <-> m !! k = Some v.
Proof. rewrite map_entries_perm. apply elem_of_map_to_list. Qed.

Lemma map_entries_length {V} (m : gmap Z V) : length (map_entries m) = size m.
Proof. rewrite map_entries_perm. apply length_map_to_list. Qed.

Lemma map_entries_NoDup_keys {V} (m : gmap Z V) : NoDup (map_entries m).*1.
Proof. rewrite map_entries_perm. apply NoDup_fst_map_to_list. Qed.

Lemma key_le_total {V} : Total (@key_le V).
Proof. intros x y. unfold key_le. lia. Qed.

(** [map_entries] lists the entries as a [std::map] iterates them. *)
Lemma map_entries_sorted {V} (m : gmap Z V) : Sorted key_le (map_entries m).
Proof.
  pose proof (@key_le_total V) as Htotal.
  unfold map_entries. by apply Sorted_merge_sort.
Qed.

(** ** The datagram tracker *)

Section UdpTracker.
Import Udp.

Implicit Types (s : State) (p : Packet) (t : Z) (reqs : gmap Z RequestStats).

Lemma request_complete_spec reqs i :
  request_complete reqs i = true <->
  exists st, reqs !! int_of_u32 i = Some st /\ is_complete st = true.
Proof.
  unfold request_complete. destruct (reqs !! int_of_u32 i) as [st|]; split.
  - intros H. by exists st.
  - by intros (st' & [= <-] & H).
  - discriminate.
  - by intros (st' & [=] & _).
Qed.

Lemma all_complete_spec reqs total :
  all_complete reqs total = true <->
  forall i, 0 <= i < total -> request_complete reqs i = true.
Proof.
  unfold all_complete. rewrite forallb_forall. split; intros H i Hi.
  - apply H, list_elem_of_In, elem_of_seqZ. lia.
  - apply H. apply list_elem_of_In, elem_of_seqZ in Hi. lia.
Qed.

(** The scan only reads the [is_complete] flags. *)
Lemma all_complete_ext reqs reqs' total :
  (forall i, request_complete reqs i = request_complete reqs' i) ->
  all_complete reqs total = all_complete reqs' total.
Proof.
  intros H. unfold all_complete. induction (seqZ 0 total) as [|i l IH]; simpl.
  - done.
  - by rewrite H, IH.
Qed.

Lemma session_complete_spec s :
  session_complete s <->
  (0 <? main_total_requests s) && all_complete (requests s) (main_total_requests s) = true.
Proof.
  unfold session_complete.
  rewrite andb_true_iff, Z.ltb_lt, all_complete_spec.
  by setoid_rewrite request_complete_spec.
Qed.

Lemma observe_requests s p t :
  requests (observe s p t) =
  <[int_of_u32 (request_id p) := observed_record s p t]> (requests s).
Proof. reflexivity. Qed.

Lemma observe_lookup_same s p t :
  requests (observe s p t) !! int_of_u32 (request_id p) = Some (observed_record s p t).
Proof. rewrite observe_requests. apply lookup_insert_eq. Qed.

Lemma observe_lookup_other s p t k :
  k <> int_of_u32 (request_id p) ->
  requests (observe s p t) !! k = requests s !! k.
Proof. intros Hk. rewrite observe_requests. by apply lookup_insert_ne. Qed.

Lemma observe_total s p t :
  main_total_requests (observe s p t) =
  if (main_total_requests s =? 0) || (total_requests p >? main_total_requests s)
  then total_requests p else main_total_requests s.
Proof. reflexivity. Qed.

Lemma observe_highest s p t :
  highest_request_id (observe s p t) =
  if request_id p >? highest_request_id s then request_id p else highest_request_id s.
Proof. reflexivity. Qed.

Lemma observe_running s p t :
  running (observe s p t) =
  if (0 <? main_total_requests (observe s p t))
     && (highest_request_id (observe s p t) =? main_total_requests (observe s p t) - 1)
     && all_complete (requests (observe s p t)) (main_total_requests (observe s p t))
  then false else running s.
Proof. reflexivity. Qed.

(** [running] is only ever cleared. *)
Lemma observe_running_false s p t : running s = false -> running (observe s p t) = false.
Proof. intros H. rewrite observe_running, H. by destruct (_ && _). Qed.

Lemma record_packet_complete_mono st p t :
  is_complete st = true -> is_complete (record_packet st p t) = true.
Proof. intros H. unfold record_packet; simpl. rewrite H. by destruct (_ =? _). Qed.

Lemma observe_keeps_complete s p t k st :
  requests s !! k = Some st -> is_complete st = true ->
  exists st', requests (observe s p t) !! k = Some st' /\ is_complete st' = true.
Proof.
  intros Hk Hc. destruct (decide (k = int_of_u32 (request_id p))) as [->|Hne].
  - exists (observed_record s p t). split; [apply observe_lookup_same|].
    unfold observed_record, current_record. rewrite Hk. by apply record_packet_complete_mono.
  - exists st. split; [|done]. rewrite observe_lookup_other; done.
Qed.

(** *** Session completion *)

(** C1 (amended). While the loop is running, an [observe] call ends it
    (clears [running]) exactly when, in the state it produces,
    [total_requests > 0], every request id in [[0, total_requests)] has a
    record with [is_complete] set, and in addition
    [highest_request_id == total_requests - 1]. In particular the loop is
    never ended by [observe] while a request of that range is incomplete or
    unseen. *)
Theorem session_completed_emitted_iff s p t :
  running s = true ->
  (running (observe s p t) = false <->
   session_complete (observe s p t) /\
   highest_request_id (observe s p t) = main_total_requests (observe s p t) - 1).
Proof.
  intros Hrun. rewrite observe_running, session_complete_spec, Hrun.
  set (total := main_total_requests (observe s p t)).
  set (highest := highest_request_id (observe s p t)).
  destruct (0 <? total); simpl.
  - destruct (Z.eqb_spec highest (total - 1)) as [He|Hne]; simpl.
    + destruct (all_complete _ total); split; try done. by intros [? _].
    + split; [done|]. intros [_ ?]. lia.
  - split; [done|]. by intros [? _].
Qed.

Lemma session_completed_emitted_iff_witness :
  running init = true /\
  (running (observe init (mkPacket 1000 0 1 0 1 10) 2000) = false <->
   session_complete (observe init (mkPacket 1000 0 1 0 1 10) 2000) /\
   highest_request_id (observe init (mkPacket 1000 0 1 0 1 10) 2000) =
   main_total_requests (observe init (mkPacket 1000 0 1 0 1 10) 2000) - 1).
Proof.
  split; [reflexivity|].
  apply (session_completed_emitted_iff init (mkPacket 1000 0 1 0 1 10) 2000).
  reflexivity.
Defined.

(** C1, as stated, fails: after a packet with [request_id = 1] (of a session
    that declares one request), the packet completing request 0 makes the
    stated condition true for the first time, and the loop keeps running. *)
Lemma session_complete_without_termination :
  let s1 := observe init (mkPacket 1000 0 1 1 1 10) 2000 in
  let s2 := observe s1 (mkPacket 1001 0 1 0 1 10) 2001 in
  running s1 = true /\ ~ session_complete s1 /\
  session_complete s2 /\ running s2 = true.
Proof.
  intros s1 s2. rewrite !session_complete_spec.
  split; [reflexivity|]. split; [|split; reflexivity].
  intros H. vm_compute in H. discriminate.
Qed.

Lemma tracker_inv_init : tracker_inv init.
Proof.
  repeat split; simpl; [lia|left; done|].
  intros k [st Hst]. by rewrite lookup_empty in Hst.
Qed.

Lemma tracker_inv_observe s p t :
  in_session (p, t) -> tracker_inv s -> tracker_inv (observe s p t).
Proof.
  intros [(_ & _ & _ & Hid & Htot & _) Hlt] (Hh & Hth & Hkeys).
  cbn [fst] in Hid, Htot, Hlt. unfold is_u32 in *.
  unfold tracker_inv. rewrite observe_highest, observe_total.
  split; [|split].
  - destruct (Z.gtb_spec (request_id p) (highest_request_id s)); lia.
  - right.
    destruct (Z.gtb_spec (request_id p) (highest_request_id s));
      destruct (Z.eqb_spec (main_total_requests s) 0);
      destruct (Z.gtb_spec (total_requests p) (main_total_requests s)); simpl; lia.
  - intros k Hk. destruct (decide (k = int_of_u32 (request_id p))) as [->|Hne].
    + exists (request_id p). split; [done|]. split; [done|].
      destruct (Z.gtb_spec (request_id p) (highest_request_id s)); lia.
    + rewrite observe_lookup_other in Hk by done.
      destruct (Hkeys k Hk) as (id & ? & ? & ?). exists id.
      split; [done|]. split; [done|].
      destruct (Z.gtb_spec (request_id p) (highest_request_id s)); lia.
Qed.

Lemma tracker_inv_observe_all arrivals s :
  Forall in_session arrivals -> tracker_inv s -> tracker_inv (observe_all s arrivals).
Proof.
  intros Hall. revert s. induction Hall as [|[p t] l Hp _ IH]; intros s Hs; simpl.
  - done.
  - apply IH. by apply tracker_inv_observe.
Qed.

Lemma tracker_inv_guard s :
  tracker_inv s -> is_u32 (main_total_requests s) -> session_complete s ->
  highest_request_id s = main_total_requests s - 1.
Proof.
  intros (Hh & Hth & Hkeys) Hu [Hpos Hall].
  destruct (Hall (main_total_requests s - 1)) as (st & Hst & _); [lia|].
  destruct (Hkeys _ (mk_is_Some _ _ Hst)) as (id & Hid & Heq & Hle).
  apply int_of_u32_inj in Heq; [lia| unfold is_u32 in *; lia | done].
Qed.

Lemma observe_all_total_u32 arrivals s :
  Forall in_session arrivals -> is_u32 (main_total_requests s) ->
  is_u32 (main_total_requests (observe_all s arrivals)).
Proof.
  intros Hall. revert s. induction Hall as [|[p t] l Hp _ IH]; intros s Hs; simpl.
  - done.
  - apply IH. rewrite observe_total. destruct Hp as [(_ & _ & _ & _ & Htot & _) _].
    simpl in Htot. by destruct (_ || _).
Qed.

Lemma in_session_guard_implied arrivals :
  Forall in_session arrivals ->
  session_complete (observe_all init arrivals) ->
  highest_request_id (observe_all init arrivals) =
  main_total_requests (observe_all init arrivals) - 1.
Proof.
  intros Hall. apply tracker_inv_guard.
  - apply tracker_inv_observe_all; [done|apply tracker_inv_init].
  - apply observe_all_total_u32; [done|]. unfold is_u32, UINT32_MOD. simpl. lia.
Qed.

End UdpTracker.

(** *** Duplicates, timestamps and unchecked fragments *)

Section UdpObserve.
Import Udp.

Implicit Types (s : State) (p : Packet) (t : Z) (st : RequestStats).

Lemma State_eq s s' :
  running s = running s' -> requests s = requests s' ->
  highest_request_id s = highest_request_id s' ->
  main_total_requests s = main_total_requests s' -> s = s'.
Proof. destruct s, s'; simpl. by intros -> -> -> ->. Qed.

Lemma record_packet_twice st p t1 t2 :
  record_packet (record_packet st p t1) p t2 = record_packet st p t2.
Proof.
  unfold record_packet; simpl. rewrite insert_insert_eq.
  destruct (packet_id p =? 0); destruct (_ =? total_packets p); reflexivity.
Qed.

Lemma observe_total_twice s p t1 t2 :
  main_total_requests (observe (observe s p t1) p t2) = main_total_requests (observe s p t2).
Proof.
  rewrite !observe_total.
  destruct (Z.eqb_spec (main_total_requests s) 0);
    destruct (Z.gtb_spec (total_requests p) (main_total_requests s)); simpl;
    repeat match goal with
           | |- context [?a =? ?b] => destruct (Z.eqb_spec a b)
           | |- context [?a >? ?b] => destruct (Z.gtb_spec a b)
           end; simpl; lia.
Qed.

Lemma observe_highest_twice s p t1 t2 :
  highest_request_id (observe (observe s p t1) p t2) = highest_request_id (observe s p t2).
Proof.
  rewrite !observe_highest.
  destruct (Z.gtb_spec (request_id p) (highest_request_id s));
    repeat match goal with
           | |- context [?a >? ?b] => destruct (Z.gtb_spec a b)
           end; lia.
Qed.

Lemma observe_requests_twice s p t1 t2 :
  requests (observe (observe s p t1) p t2) = requests (observe s p t2).
Proof.
  rewrite (observe_requests (observe s p t1)). unfold observed_record at 1, current_record at 1.
  rewrite observe_lookup_same. simpl default. unfold observed_record, current_record.
  rewrite record_packet_twice, !observe_requests. apply insert_insert_eq.
Qed.

(** The completion flags after [observe] do not depend on the receive time. *)
Lemma observe_request_complete_time s p t1 t2 i :
  request_complete (requests (observe s p t1)) i =
  request_complete (requests (observe s p t2)) i.
Proof.
  unfold request_complete. rewrite !observe_requests.
  destruct (decide (int_of_u32 i = int_of_u32 (request_id p))) as [->|Hne].
  - by rewrite !lookup_insert_eq.
  - by rewrite !lookup_insert_ne.
Qed.

(** C2 (amended). Applying [observe] to the same fragment twice yields the
    state (hence the RequestRecord) obtained by applying it once with the
    receive time of the second arrival: the received set, [is_complete] and
    [first_packet_send_time] are as after one application, while
    [last_packet_recv_time] and, for index 0, [first_packet_recv_time] are
    those of the later arrival. With equal receive times [observe] is
    idempotent. *)
Theorem observe_duplicate_last_wins s p t1 t2 :
  observe (observe s p t1) p t2 = observe s p t2 /\
  observe (observe s p t1) p t1 = observe s p t1.
Proof.
  assert (forall u1 u2, observe (observe s p u1) p u2 = observe s p u2) as H.
  { intros u1 u2. apply State_eq.
    - rewrite (observe_running (observe s p u1)).
      rewrite observe_total_twice, observe_highest_twice, observe_requests_twice.
      rewrite (observe_running s p u2).
      destruct (_ && _) eqn:E; [done|].
      rewrite observe_running.
      replace (main_total_requests (observe s p u1))
        with (main_total_requests (observe s p u2)) by reflexivity.
      replace (highest_request_id (observe s p u1))
        with (highest_request_id (observe s p u2)) by reflexivity.
      rewrite (all_complete_ext _ (requests (observe s p u2)))
        by (intros i; apply observe_request_complete_time).
      by rewrite E.
    - apply observe_requests_twice.
    - apply observe_highest_twice.
    - apply observe_total_twice. }
  split; apply H.
Qed.

(** C2, as stated, fails: a duplicate of an index-0 fragment arriving at a
    later time overwrites [first_packet_recv_time] (and the record differs
    from the one left by the first arrival). *)
Lemma duplicate_overwrites_first_recv_time :
  let p := mkPacket 1000 0 2 0 1 1400 in
  let once := observe init p 2000 in
  let twice := observe once p 2500 in
  requests twice !! 0 <> requests once !! 0 /\
  first_packet_recv_time <$> requests once !! 0 = Some 2000 /\
  first_packet_recv_time <$> requests twice !! 0 = Some 2500.
Proof.
  intros p once twice. split; [|split; reflexivity].
  intros H. apply (f_equal (fmap first_packet_recv_time)) in H.
  vm_compute in H. discriminate.
Qed.

(** C3 (amended). [observe] sets [last_packet_recv_time] of the fragment's
    request to this arrival's receive time; that is the maximum of the
    current value and the receive time exactly when the receive time is not
    earlier than the current value. [first_packet_recv_time] is set to the
    receive time by every index-0 fragment and is left unchanged by every
    other fragment. *)
Theorem observe_recv_times s p t :
  exists st',
    requests (observe s p t) !! int_of_u32 (request_id p) = Some st' /\
    last_packet_recv_time st' = t /\
    (last_packet_recv_time st' = Z.max (last_packet_recv_time (current_record s p)) t
     <-> last_packet_recv_time (current_record s p) <= t) /\
    first_packet_recv_time st' =
      (if packet_id p =? 0 then t else first_packet_recv_time (current_record s p)).
Proof.
  exists (observed_record s p t). split; [apply observe_lookup_same|].
  unfold observed_record, record_packet, current_record; simpl.
  split; [done|]. split; [lia|done].
Qed.

(** C3, as stated, fails: a fragment whose receive time is earlier than the
    recorded one moves [last_packet_recv_time] back, and a second index-0
    fragment changes [first_packet_recv_time]. *)
Lemma last_recv_time_regresses :
  let s1 := observe init (mkPacket 1000 1 2 0 1 1400) 2500 in
  let s2 := observe s1 (mkPacket 1001 0 2 0 1 1400) 2400 in
  let s3 := observe s2 (mkPacket 1001 0 2 0 1 1400) 2600 in
  last_packet_recv_time <$> requests s1 !! 0 = Some 2500 /\
  last_packet_recv_time <$> requests s2 !! 0 = Some 2400 /\
  Z.max 2500 2400 <> 2400 /\
  first_packet_recv_time <$> requests s2 !! 0 = Some 2400 /\
  first_packet_recv_time <$> requests s3 !! 0 = Some 2600.
Proof. intros s1 s2 s3. repeat split; try reflexivity. lia. Qed.

(** C4 (amended). [observe] does not validate fragments: one with
    [packet_id >= total_packets] is processed like any other. Its request's
    record exists afterwards (created if it was absent) with the index in the
    received set and the receive time as [last_packet_recv_time]; the
    declared total and the highest request id are raised as usual. Only the
    records of the other request ids are left unaltered. *)
Theorem observe_unchecked_fragment s p t :
  total_packets p <= packet_id p ->
  (exists st',
     requests (observe s p t) !! int_of_u32 (request_id p) = Some st' /\
     received_packets st' !! int_of_u32 (packet_id p) = Some true /\
     last_packet_recv_time st' = t) /\
  (forall k, k <> int_of_u32 (request_id p) ->
     requests (observe s p t) !! k = requests s !! k) /\
  main_total_requests (observe s p t) =
    (if (main_total_requests s =? 0) || (total_requests p >? main_total_requests s)
     then total_requests p else main_total_requests s) /\
  highest_request_id (observe s p t) =
    (if request_id p >? highest_request_id s then request_id p else highest_request_id s).
Proof.
  intros _. split; [|split; [|split]].
  - exists (observed_record s p t). split; [apply observe_lookup_same|].
    unfold observed_record, record_packet; simpl. split; [|done].
    apply lookup_insert_eq.
  - intros k Hk. by apply observe_lookup_other.
  - apply observe_total.
  - apply observe_highest.
Qed.

Lemma observe_unchecked_fragment_witness :
  total_packets (mkPacket 1000 5 3 0 1 1400) <= packet_id (mkPacket 1000 5 3 0 1 1400) /\
  exists st',
    requests (observe init (mkPacket 1000 5 3 0 1 1400) 2000) !! 0 = Some st' /\
    received_packets st' !! 5 = Some true /\
    last_packet_recv_time st' = 2000.
Proof.
  split; [simpl; lia|].
  apply (observe_unchecked_fragment init (mkPacket 1000 5 3 0 1 1400) 2000).
  simpl; lia.
Defined.

(** C4, as stated, fails: the fragment with index 5 of 3 creates a
    RequestRecord for its request and raises the declared total. *)
Lemma malformed_fragment_mutates_state :
  let p := mkPacket 1000 5 3 0 4 1400 in
  total_packets p <= packet_id p /\
  requests init !! 0 = None /\
  requests (observe init p 2000) !! 0 =
    Some (mkRequestStats 0 0 2000 false {[ 5 := true ]}) /\
  main_total_requests init = 0 /\
  main_total_requests (observe init p 2000) = 4.
Proof. intros p. repeat split; try reflexivity. simpl; lia. Qed.

(** C10. Once a request's [is_complete] is set it stays set: after any
    sequence of further [observe] calls the request still has a record with
    [is_complete] set. *)
Theorem is_complete_monotone arrivals s k st :
  requests s !! k = Some st -> is_complete st = true ->
  exists st', requests (observe_all s arrivals) !! k = Some st' /\ is_complete st' = true.
Proof.
  revert s st. induction arrivals as [|[p t] l IH]; intros s st Hk Hc; simpl.
  - by exists st.
  - destruct (observe_keeps_complete s p t k st Hk Hc) as (st1 & Hk1 & Hc1).
    by apply (IH _ st1).
Qed.

Lemma is_complete_monotone_witness :
  let s := observe init (mkPacket 1000 0 1 0 2 100) 2000 in
  let later := [(mkPacket 1001 0 1 0 2 100, 2001); (mkPacket 1002 1 3 0 2 100, 2002);
                (mkPacket 1003 0 2 1 2 100, 2003)] in
  (requests s !! 0 = Some (mkRequestStats 1000 2000 2000 true {[ 0 := true ]}) /\
   is_complete (mkRequestStats 1000 2000 2000 true {[ 0 := true ]}) = true) /\
  exists st', requests (observe_all s later) !! 0 = Some st' /\ is_complete st' = true.
Proof.
  intros s later. split; [split; reflexivity|].
  apply (is_complete_monotone later s 0
           (mkRequestStats 1000 2000 2000 true {[ 0 := true ]})); reflexivity.
Defined.

(** The loop consumes nothing once [running] is cleared, and a datagram
    is handled by [observe]. *)
Lemma receive_loop_stopped s evs :
  running s = false -> receive_loop s evs = (s, []).
Proof. intros H. destruct evs; simpl; [done|]. by rewrite H. Qed.

Lemma receive_loop_datagram s p t evs :
  running s = true ->
  (receive_loop s (Datagram p t :: evs)).1 = (receive_loop (observe s p t) evs).1.
Proof.
  intros H. simpl. rewrite H.
  by destruct (receive_loop (observe s p t) evs).
Qed.

End UdpObserve.

(** ** The stream tracker *)

Section TcpTracker.
Import Tcp.

Implicit Types (s : State) (io : RequestIO) (reqs : gmap Z RequestStats).

Lemma bytes_before_close_nonneg reads : 0 <= bytes_before_close reads.
Proof.
  induction reads as [|r l IH]; simpl; [lia|].
  destruct (Z.leb_spec r 0); lia.
Qed.

(** The payload loop receives [min remaining (bytes before close)] bytes. *)
Lemma recv_data_spec reads remaining total_received :
  0 <= remaining ->
  recv_data reads remaining total_received =
  (remaining - Z.min remaining (bytes_before_close reads),
   total_received + Z.min remaining (bytes_before_close reads)).
Proof.
  revert remaining total_received.
  induction reads as [|r l IH]; intros remaining total_received Hrem; simpl.
  - destruct (Z.gtb_spec remaining 0); f_equal; lia.
  - pose proof (bytes_before_close_nonneg l) as Hl.
    destruct (Z.gtb_spec remaining 0); [|destruct (Z.leb_spec r 0); f_equal; lia].
    unfold recv. destruct (Z.leb_spec (Z.min r remaining) 0) as [Hle|Hgt].
    + destruct (Z.leb_spec r 0); [f_equal; lia|lia].
    + destruct (Z.leb_spec r 0); [lia|].
      rewrite IH by lia. f_equal; lia.
Qed.

(** A short read continues the loop. *)
Lemma recv_data_short_read offered reads remaining total_received :
  0 < offered < remaining ->
  recv_data (offered :: reads) remaining total_received =
  recv_data reads (remaining - offered) (total_received + offered).
Proof.
  intros H. simpl. unfold recv. rewrite Z.min_l by lia.
  destruct (Z.gtb_spec remaining 0); [|lia].
  by destruct (Z.leb_spec offered 0); [lia|].
Qed.


(** A request whose payload arrives in full is recorded as complete. *)
Lemma handle_request_complete s io :
  0 < header_bytes io ->
  0 <= data_size (header io) <= INT_MAX ->
  data_size (header io) <= bytes_before_close (data_reads io) ->
  requests (handle_request s io).1 !! int_of_u32 (request_id (header io)) =
  Some (mkRequestStats (timestamp (header io)) (io_header_recv_time io)
                       (io_data_complete_time io) true).
Proof.
  intros Hhdr Hsize Hfull. unfold handle_request.
  destruct (Z.leb_spec (header_bytes io) 0); [lia|].
  rewrite (int_of_u32_small (data_size (header io))) by done.
  rewrite recv_data_spec by lia.
  destruct (Z.gtb_spec
    (data_size (header io) - Z.min (data_size (header io)) (bytes_before_close (data_reads io))) 0);
    [lia|].
  destruct (_ && _); simpl; apply lookup_insert_eq.
Qed.

(** Outside that range: a [data_size] above [INT_MAX] is read into a
    negative [remaining], the payload loop is skipped, and the request is
    recorded at once, whatever the transport delivers. *)
Lemma handle_request_oversized s io :
  0 < header_bytes io ->
  INT_MAX < data_size (header io) < UINT32_MOD ->
  requests (handle_request s io).1 !! int_of_u32 (request_id (header io)) =
  Some (mkRequestStats (timestamp (header io)) (io_header_recv_time io)
                       (io_data_complete_time io) true).
Proof.
  intros Hhdr Hsize. unfold handle_request.
  destruct (Z.leb_spec (header_bytes io) 0); [lia|].
  assert (int_of_u32 (data_size (header io)) < 0) as Hneg.
  { unfold int_of_u32. unfold UINT32_MOD, INT_MAX in *.
    destruct (Z.leb_spec (data_size (header io)) 2147483647); lia. }
  assert (recv_data (data_reads io) (int_of_u32 (data_size (header io))) 0 =
          (int_of_u32 (data_size (header io)), 0)) as ->.
  { destruct (data_reads io); simpl;
      by destruct (Z.gtb_spec (int_of_u32 (data_size (header io))) 0); [lia|]. }
  destruct (Z.gtb_spec (int_of_u32 (data_size (header io))) 0); [lia|].
  destruct (_ && _); simpl; apply lookup_insert_eq.
Qed.






(** The rows of the results file are those of the complete entries. *)
Lemma write_results_rows reqs row :
  row ∈ write_results reqs <->
  exists k st, reqs !! k = Some st /\ is_complete st = true /\ row = row_of (k, st).
Proof.
  unfold write_results. rewrite list_elem_of_fmap. split.
  - intros ([k st] & -> & [Hc Hin]%list_elem_of_filter).
    apply elem_of_map_entries in Hin. by exists k, st.
  - intros (k & st & Hk & Hc & ->). exists (k, st). split; [done|].
    apply list_elem_of_filter. split; [done|]. by apply elem_of_map_entries.
Qed.

Lemma handle_request_expected_later s io :
  total_requests_received s <> 0 ->
  expected_total_requests (handle_request s io).1 = expected_total_requests s.
Proof.
  intros Hne. unfold handle_request.
  destruct (header_bytes io <=? 0); [done|].
  destruct (recv_data _ _ _) as [remaining total_received].
  destruct (remaining >? 0); [done|].
  destruct (Z.eqb_spec (total_requests_received s) 0); [done|].
  by destruct (_ && _).
Qed.

Lemma handle_request_expected_first s io :
  total_requests_received s = 0 ->
  0 < header_bytes io ->
  0 <= data_size (header io) <= INT_MAX ->
  data_size (header io) <= bytes_before_close (data_reads io) ->
  expected_total_requests (handle_request s io).1 = total_requests (header io).
Proof.
  intros Hzero Hhdr Hsize Hfull. unfold handle_request.
  destruct (Z.leb_spec (header_bytes io) 0); [lia|].
  rewrite (int_of_u32_small (data_size (header io))) by done.
  rewrite recv_data_spec by lia.
  destruct (Z.gtb_spec
    (data_size (header io) - Z.min (data_size (header io)) (bytes_before_close (data_reads io))) 0);
    [lia|].
  rewrite Hzero. simpl. by destruct (_ && _).
Qed.




(** No request has two rows. *)
Lemma write_results_NoDup_keys reqs :
  NoDup (filter (fun pair : Z * RequestStats => is_complete pair.2 = true)
                (map_entries reqs)).*1.
Proof.
  apply (sublist_NoDup _ (map_entries reqs).*1); [apply map_entries_NoDup_keys|].
  apply fmap_sublist, sublist_filter.
Qed.

(** Rows are written for complete entries only. *)
Lemma write_results_length reqs :
  length (write_results reqs) =
  length (filter (fun pair : Z * RequestStats => is_complete pair.2 = true)
                 (map_entries reqs)).
Proof. unfold write_results. apply length_fmap. Qed.

End TcpTracker.

(** ** The results file and the declared total, both transports *)

Section Results.

Lemma udp_observe_total_max s p t :
  0 <= Udp.main_total_requests s -> 0 <= Udp.total_requests p ->
  Udp.main_total_requests (Udp.observe s p t) =
  Z.max (Udp.main_total_requests s) (Udp.total_requests p).
Proof.
  intros Hs Hp. rewrite observe_total.
  destruct (Z.eqb_spec (Udp.main_total_requests s) 0);
    destruct (Z.gtb_spec (Udp.total_requests p) (Udp.main_total_requests s)); simpl; lia.
Qed.

Lemma udp_observe_all_total arrivals s :
  0 <= Udp.main_total_requests s ->
  Forall (fun a => Udp.wf_packet a.1) arrivals ->
  Udp.main_total_requests (Udp.observe_all s arrivals) =
  Z.max (Udp.main_total_requests s) (max_total_requests arrivals).
Proof.
  intros Hs Hall. revert s Hs.
  induction Hall as [|[p t] l Hp _ IH]; intros s Hs; simpl.
  - lia.
  - destruct Hp as (_ & _ & _ & _ & [Hp _] & _). simpl in Hp.
    rewrite IH; rewrite udp_observe_total_max by done; lia.
Qed.

(** C5 (amended). In the datagram tracker [total_requests] equals the
    maximum [total_requests] value over all fragments observed so far (a
    fragment declaring 10 after one declaring 5 raises it to 10), and the
    loop is ended by [observe] only when every request below that total is
    complete. The stream tracker instead takes [expected_total_requests] from
    the first request it receives in full, while [total_requests_received]
    is 0, and no later request changes it, whatever total it declares. *)
Theorem declared_total_requests :
  (forall arrivals,
     Forall (fun a => Udp.wf_packet a.1) arrivals ->
     Udp.main_total_requests (Udp.observe_all Udp.init arrivals) =
     max_total_requests arrivals) /\
  (forall s p t,
     Udp.running s = true -> Udp.running (Udp.observe s p t) = false ->
     forall i, 0 <= i < Udp.main_total_requests (Udp.observe s p t) ->
       Udp.request_complete (Udp.requests (Udp.observe s p t)) i = true) /\
  (forall s io,
     Tcp.total_requests_received s = 0 ->
     0 < Tcp.header_bytes io ->
     0 <= Tcp.data_size (Tcp.header io) <= INT_MAX ->
     Tcp.data_size (Tcp.header io) <= bytes_before_close (Tcp.data_reads io) ->
     Tcp.expected_total_requests (Tcp.handle_request s io).1 =
     Tcp.total_requests (Tcp.header io)) /\
  (forall s io,
     Tcp.total_requests_received s <> 0 ->
     Tcp.expected_total_requests (Tcp.handle_request s io).1 =
     Tcp.expected_total_requests s).
Proof.
  split; [|split; [|split]].
  - intros arrivals Hall. rewrite udp_observe_all_total by done.
    simpl.
    assert (0 <= max_total_requests arrivals) as H.
    { clear Hall. induction arrivals; simpl; lia. }
    lia.
  - intros s p t Hrun Hstop.
    rewrite observe_running, Hrun in Hstop.
    destruct (Udp.all_complete _ _) eqn:Hall.
    + by apply all_complete_spec.
    + by rewrite andb_false_r in Hstop.
  - apply handle_request_expected_first.
  - apply handle_request_expected_later.
Qed.

Lemma declared_total_requests_witness :
  let a5 := (Udp.mkPacket 1000 0 1 0 5 100, 2000) in
  let a10 := (Udp.mkPacket 1001 0 1 1 10 100, 2001) in
  Forall (fun a => Udp.wf_packet a.1) [a5; a10] /\
  Udp.main_total_requests (Udp.observe_all Udp.init [a5; a10]) = 10.
Proof.
  intros a5 a10.
  assert (Forall (fun a => Udp.wf_packet a.1) [a5; a10]) as Hwf.
  { repeat constructor; simpl; unfold UINT64_MOD, UINT32_MOD; lia. }
  split; [exact Hwf|].
  destruct declared_total_requests as (H & _).
  exact (H [a5; a10] Hwf).
Defined.

(** C5, as stated, fails for the stream tracker: a request declaring 10
    after one declaring 5 leaves the expected total at 5. *)
Lemma stream_total_not_raised :
  let io5 := Tcp.mkRequestIO 24 (Tcp.mkRequestHeader 1000 0 5 100) 2000 [100] 2100 in
  let io10 := Tcp.mkRequestIO 24 (Tcp.mkRequestHeader 1200 1 10 100) 2200 [100] 2300 in
  let s := Tcp.connection_loop Tcp.init [io5; io10] in
  Tcp.total_requests_received s = 2 /\
  Tcp.expected_total_requests s = 5 /\
  Z.max (Tcp.total_requests (Tcp.header io5)) (Tcp.total_requests (Tcp.header io10)) = 10.
Proof. intros io5 io10 s. repeat split; reflexivity. Qed.

(** The datagram client writes a row for every entry of [requests]. *)
Lemma udp_write_results_length reqs :
  length (Udp.write_results reqs) = size reqs.
Proof. unfold Udp.write_results. rewrite length_fmap. apply map_entries_length. Qed.

Lemma udp_write_results_rows reqs row :
  row ∈ Udp.write_results reqs <->
  exists k st, reqs !! k = Some st /\ row = Udp.row_of (k, st).
Proof.
  unfold Udp.write_results. rewrite list_elem_of_fmap. split.
  - intros ([k st] & -> & Hin). apply elem_of_map_entries in Hin. by exists k, st.
  - intros (k & st & Hk & ->). exists (k, st). split; [done|].
    by apply elem_of_map_entries.
Qed.

(** C6, at the failing input: with five requests declared, requests 0-3
    complete and one of the two fragments of request 4 received, the
    datagram client's [write_results] writes five rows; the fifth is the
    row of the incomplete request 4. *)
Theorem udp_write_results_lists_incomplete :
  let arrivals :=
    [(Udp.mkPacket 1000 0 1 0 5 100, 2000); (Udp.mkPacket 1100 0 1 1 5 100, 2100);
     (Udp.mkPacket 1200 0 1 2 5 100, 2200); (Udp.mkPacket 1300 0 1 3 5 100, 2300);
     (Udp.mkPacket 1400 1 2 4 5 100, 2400)] in
  let s := Udp.observe_all Udp.init arrivals in
  Udp.main_total_requests s = 5 /\
  filter (fun i => Udp.request_complete (Udp.requests s) i = true) (seqZ 0 5) = [0; 1; 2; 3] /\
  Udp.write_results (Udp.requests s) =
    [Udp.mkRow 0 1000 0; Udp.mkRow 1 1000 0; Udp.mkRow 2 1000 0; Udp.mkRow 3 1000 0;
     Udp.mkRow 4 0 2400].
Proof. intros arrivals s. repeat split; reflexivity. Qed.

End Results.

(** ** The fragment emitter *)

Section UdpEmitter.
Import Udp.

Variable M : Z.
Hypothesis M_pos : 0 < M.

Lemma prepare_length n i rem tp rid tr :
  length (prepare M n i rem tp rid tr) = n.
Proof.
  revert i rem. induction n as [|n IH]; intros i rem; simpl; [done|].
  by rewrite IH.
Qed.

Lemma prepare_step_size rem :
  0 <= rem <= INT_MAX -> M <= INT_MAX ->
  u32_of_int (if rem >? M then M else rem) = Z.min rem M.
Proof.
  intros Hrem HM. unfold u32_of_int, UINT32_MOD. unfold INT_MAX in *.
  destruct (Z.gtb_spec rem M); rewrite Z.mod_small; lia.
Qed.

Lemma prepare_step_remaining rem :
  0 <= rem <= INT_MAX -> M <= INT_MAX ->
  int_of_u32 ((rem - Z.min rem M) mod UINT32_MOD) = rem - Z.min rem M.
Proof.
  intros Hrem HM. unfold UINT32_MOD. unfold INT_MAX in *.
  rewrite Z.mod_small by lia. apply int_of_u32_small. unfold INT_MAX. lia.
Qed.

Lemma prepare_spec n i rem tp rid tr :
  M <= INT_MAX -> 0 <= rem <= INT_MAX ->
  (Z.of_nat n - 1) * M < rem <= Z.of_nat n * M \/ (n = O /\ rem = 0) ->
  0 <= i -> i + Z.of_nat n <= UINT32_MOD ->
  payload_bytes (prepare M n i rem tp rid tr) = rem /\
  forall k p, prepare M n i rem tp rid tr !! k = Some p ->
    packet_id p = i + Z.of_nat k /\
    total_packets p = u32_of_int tp /\
    request_id p = u32_of_int rid /\
    total_requests p = u32_of_int tr /\
    data_size p = fragment_size M rem (Z.of_nat n) (Z.of_nat k).
Proof.
  intros HM. revert i rem.
  induction n as [|n IH]; intros i rem Hrem Hn Hi Hin; cbn [prepare].
  - split; [|by intros k p Hk]. unfold payload_bytes; cbn [foldr].
    destruct Hn as [Hn|[_ ->]]; [change (Z.of_nat 0) with 0 in Hn; lia|done].
  - destruct Hn as [Hn|[Hn _]]; [|done].
    rewrite Nat2Z.inj_succ in Hn, Hin |- *.
    rewrite prepare_step_size, prepare_step_remaining by done.
    assert ((Z.of_nat n - 1) * M < rem - Z.min rem M <= Z.of_nat n * M
            \/ (n = O /\ rem - Z.min rem M = 0)) as Hn'.
    { destruct (Z.le_gt_cases rem M) as [Hle|Hgt].
      - right. split; [nia|lia].
      - left. rewrite Z.min_r by lia. nia. }
    destruct (IH (i + 1) (rem - Z.min rem M)) as [Hsum Hpk]; [lia|done|lia|lia|].
    split; [cbn [payload_bytes foldr data_size]; fold (payload_bytes
              (prepare M n (i + 1) (rem - Z.min rem M) tp rid tr)); lia|].
    intros [|k] p Hk; cbn [lookup list_lookup] in Hk.
    + injection Hk as <-. cbn [packet_id total_packets request_id total_requests data_size].
      unfold fragment_size. change (Z.of_nat 0) with 0.
      repeat split; try done.
      * unfold u32_of_int, UINT32_MOD in *. rewrite Z.mod_small; lia.
      * destruct (Z.ltb_spec 0 (Z.succ (Z.of_nat n) - 1)); nia.
    + destruct (Hpk k p Hk) as (Hid & Htp & Hrid & Htr & Hsz).
      rewrite Nat2Z.inj_succ.
      repeat split; try done; [lia|].
      rewrite Hsz. unfold fragment_size.
      pose proof (lookup_lt_Some _ _ _ Hk) as Hlt. rewrite prepare_length in Hlt.
      assert (M < rem) by nia. rewrite Z.min_r by lia.
      destruct (Z.ltb_spec (Z.of_nat k) (Z.of_nat n - 1));
        destruct (Z.ltb_spec (Z.succ (Z.of_nat k)) (Z.succ (Z.of_nat n) - 1)); lia.
Qed.

Lemma send_all_lookup clock packets k p :
  send_all clock packets !! k = Some p ->
  exists q, packets !! k = Some q /\ timestamp p = clock k /\
    packet_id p = packet_id q /\ total_packets p = total_packets q /\
    request_id p = request_id q /\ total_requests p = total_requests q /\
    data_size p = data_size q.
Proof.
  unfold send_all. rewrite list_lookup_imap.
  destruct (packets !! k) as [q|]; simpl; [|done].
  intros [= <-]. by exists q.
Qed.



(** Outside the range of [int]: [bytes_to_send + MAX_PACKET_SIZE]
    overflows and nothing is specified. *)
Lemma send_request_overflow clock bytes_to_send rid tr :
  INT_MAX < bytes_to_send + M ->
  send_request_sized M clock bytes_to_send rid tr = None.
Proof.
  intros H. unfold send_request_sized.
  by destruct (Z.leb_spec (bytes_to_send + M) INT_MAX); [lia|].
Qed.

Lemma ceil_div_bounds bytes :
  0 < bytes ->
  ((bytes + M - 1) / M - 1) * M < bytes <= (bytes + M - 1) / M * M.
Proof.
  intros Hb. pose proof (Z.div_mod (bytes + M - 1) M ltac:(lia)) as Hdm.
  pose proof (Z.mod_pos_bound (bytes + M - 1) M M_pos) as Hmod. nia.
Qed.


End UdpEmitter.



(** ** The trigger-driven sender *)

Section AwsTrigger.
Import Aws.

Implicit Types (r : TriggerRead) (reads : list TriggerRead).

Lemma strncmp_TRIG buffer :
  length buffer = 4%nat ->
  (strncmp buffer TRIG 4 = 0 <-> buffer = trigger_token).
Proof.
  destruct buffer as [|c1 [|c2 [|c3 [|c4 [|? ?]]]]]; try discriminate.
  intros _. unfold trigger_token. simpl.
  destruct (Z.eqb_spec c1 84) as [->|?]; simpl; [|split; [lia|congruence]].
  destruct (Z.eqb_spec c2 82) as [->|?]; simpl; [|split; [lia|congruence]].
  destruct (Z.eqb_spec c3 73) as [->|?]; simpl; [|split; [lia|congruence]].
  destruct (Z.eqb_spec c4 71) as [->|?]; simpl; [|split; [lia|congruence]].
  done.
Qed.

Lemma is_trigger_spec r :
  length (trigger_buffer r) = 4%nat ->
  (is_trigger r = true <-> bytes_received r = 4 /\ trigger_buffer r = trigger_token).
Proof.
  intros Hlen. unfold is_trigger.
  rewrite andb_true_iff, !Z.eqb_eq. by rewrite strncmp_TRIG.
Qed.

(** A read that is not a trigger and does not close the connection leaves
    the loop where it was. *)
Lemma send_data_skip num_requests bytes_per_request requests_sent r reads :
  0 < bytes_received r -> is_trigger r = false ->
  send_data_to_phone num_requests bytes_per_request requests_sent (r :: reads) =
  if (requests_sent <? num_requests) && running r
  then send_data_to_phone num_requests bytes_per_request requests_sent reads
  else ([], requests_sent).
Proof.
  intros Hpos Hnot. cbn [send_data_to_phone]. destruct (_ && running r); [|done].
  destruct (Z.leb_spec (bytes_received r) 0); [lia|].
  unfold is_trigger in Hnot. apply andb_false_iff in Hnot.
  destruct Hnot as [-> | ->]; cbn [negb orb]; [done|]. by rewrite orb_true_r.
Qed.

(** A trigger is answered by the header and, for a non-empty request, the
    payload. *)
Lemma send_data_trigger num_requests bytes_per_request requests_sent r reads :
  requests_sent < num_requests -> running r = true -> is_trigger r = true ->
  send_data_to_phone num_requests bytes_per_request requests_sent (r :: reads) =
  ((SendHeader (current_time r) bytes_per_request
    :: (if bytes_per_request >? 0 then [SendPayload bytes_per_request] else []))
   ++ (send_data_to_phone num_requests bytes_per_request (requests_sent + 1) reads).1,
   (send_data_to_phone num_requests bytes_per_request (requests_sent + 1) reads).2).
Proof.
  intros Hlt Hrun Htrig. cbn [send_data_to_phone]. rewrite Hrun.
  destruct (Z.ltb_spec requests_sent num_requests); [|lia]. cbn [andb].
  unfold is_trigger in Htrig. apply andb_true_iff in Htrig as [H4 Hcmp].
  rewrite H4, Hcmp. apply Z.eqb_eq in H4. rewrite H4. cbn [Z.leb Z.compare negb orb].
  by destruct (send_data_to_phone _ _ _ reads).
Qed.

(** Every request sent answers a trigger of its own. *)
Lemma send_data_counts num_requests bytes_per_request reads requests_sent :
  let out := send_data_to_phone num_requests bytes_per_request requests_sent reads in
  Z.of_nat (length (filter (fun x => is_header x = true) out.1)) = out.2 - requests_sent /\
  (length (filter (fun x => is_header x = true) out.1)
   <= length (filter (fun r => is_trigger r = true) reads))%nat /\
  (filter (fun r => is_trigger r = true) reads = [] -> out.1 = []).
Proof.
  revert requests_sent. induction reads as [|r l IH]; intros requests_sent.
  - simpl. repeat split; try done; lia.
  - cbn zeta. cbn [send_data_to_phone].
    destruct ((requests_sent <? num_requests) && running r) eqn:Hloop;
      [|cbn [fst snd length filter]; repeat split; try done; simpl; lia].
    destruct (Z.leb_spec (bytes_received r) 0);
      [cbn [fst snd length filter]; repeat split; try done; simpl; lia|].
    rewrite filter_cons.
    destruct (is_trigger r) eqn:Htrig.
    + unfold is_trigger in Htrig. apply andb_true_iff in Htrig as [H4 Hcmp].
      rewrite H4, Hcmp. cbn [negb orb].
      destruct (IH (requests_sent + 1)) as (Hn & Hle & _).
      destruct (send_data_to_phone _ _ (requests_sent + 1) l) as [more n].
      cbn [fst snd] in *.
      rewrite decide_True by done.
      split; [|split; [|done]].
      * destruct (bytes_per_request >? 0); cbn [app]; rewrite !filter_cons; simpl;
          rewrite ?decide_True by done; simpl; lia.
      * destruct (bytes_per_request >? 0); cbn [app]; rewrite !filter_cons; simpl;
          rewrite ?decide_True by done; simpl; lia.
    + rewrite decide_False by (by rewrite not_true_iff_false).
      unfold is_trigger in Htrig. apply andb_false_iff in Htrig.
      replace (negb (bytes_received r =? 4)
               || negb (strncmp (trigger_buffer r) TRIG 4 =? 0)) with true
        by (by destruct Htrig as [-> | ->]; cbn [negb orb]; rewrite ?orb_true_r).
      apply IH.
Qed.

(** C9. While requests remain and the sender is running, a 4-byte read
    that is not the token ["TRIG"] sends nothing and leaves the sender
    waiting for the next read with [requests_sent] unchanged; a 4-byte read
    of the token is answered by the header and payload of one request.
    Over any script of reads the number of requests sent never exceeds the
    number of tokens received, and nothing is sent when no token arrives. *)
Theorem trigger_gates_sending num_requests bytes_per_request requests_sent r reads :
  requests_sent < num_requests -> running r = true ->
  bytes_received r = 4 -> length (trigger_buffer r) = 4%nat ->
  (trigger_buffer r <> trigger_token ->
   send_data_to_phone num_requests bytes_per_request requests_sent (r :: reads) =
   send_data_to_phone num_requests bytes_per_request requests_sent reads) /\
  (trigger_buffer r = trigger_token ->
   send_data_to_phone num_requests bytes_per_request requests_sent (r :: reads) =
   ((SendHeader (current_time r) bytes_per_request
     :: (if bytes_per_request >? 0 then [SendPayload bytes_per_request] else []))
    ++ (send_data_to_phone num_requests bytes_per_request (requests_sent + 1) reads).1,
    (send_data_to_phone num_requests bytes_per_request (requests_sent + 1) reads).2)) /\
  (forall script sent0,
     let out := send_data_to_phone num_requests bytes_per_request sent0 script in
     Z.of_nat (length (filter (fun x => is_header x = true) out.1)) = out.2 - sent0 /\
     (length (filter (fun x => is_header x = true) out.1)
      <= length (filter (fun r => is_trigger r = true) script))%nat /\
     (filter (fun r => is_trigger r = true) script = [] -> out.1 = [])).
Proof.
  intros Hlt Hrun H4 Hlen. split; [|split].
  - intros Hne. rewrite send_data_skip; [| lia |].
    + rewrite Hrun. by destruct (Z.ltb_spec requests_sent num_requests); [|lia].
    + apply not_true_iff_false. rewrite is_trigger_spec by done. by intros [_ ?].
  - intros Heq. apply send_data_trigger; [done|done|].
    by apply is_trigger_spec.
  - intros script sent0. apply send_data_counts.
Qed.

Lemma trigger_gates_sending_witness :
  let noise := mkTriggerRead true 4 [84; 82; 73; 70] 7000 in
  let trig := mkTriggerRead true 4 [84; 82; 73; 71] 8000 in
  send_data_to_phone 2 100 0 [noise; trig] = send_data_to_phone 2 100 0 [trig] /\
  send_data_to_phone 2 100 0 [noise; trig] = ([SendHeader 8000 100; SendPayload 100], 1).
Proof.
  intros noise trig.
  destruct (trigger_gates_sending 2 100 0 noise [trig]) as (H & _);
    [lia | reflexivity | reflexivity | reflexivity |].
  split; [|reflexivity].
  apply H. unfold trigger_token. simpl. congruence.
Defined.

End AwsTrigger.

(** ** The emitter and the tracker together *)

(** The scenario of the specification: a 3000-byte request is split into
    three packets; the tracker observes them in order, ends the session, and
    the results file has the one row of request 0. *)
Example end_to_end :
  let clock := fun k => 5000 + Z.of_nat k in
  exists packets,
    Udp.send_request clock 3000 0 1 = Some packets /\
    let s := Udp.observe_all Udp.init (zip packets [7000; 7010; 7025]) in
    Udp.running s = false /\
    Udp.write_results (Udp.requests s) = [Udp.mkRow 0 (7000 - 5000) (7025 - 7000)].
Proof. intros clock. eexists. split; [reflexivity|]. split; reflexivity. Qed.

(** ** The datagram tracker over whole sessions *)

Section UdpSessions.
Import Udp.

Implicit Types (s : State) (p : Packet) (t : Z) (st : RequestStats).
Implicit Types (arrivals : list (Packet * Z)).

Lemma observe_all_app s arrivals1 arrivals2 :
  observe_all s (arrivals1 ++ arrivals2) = observe_all (observe_all s arrivals1) arrivals2.
Proof. unfold observe_all. apply fold_left_app. Qed.

(** The receive loop handles the arrivals it processes, and no other: its
    final state is the one reached by observing [processed s arrivals]. *)
Lemma receive_loop_processed s arrivals :
  (receive_loop s (datagrams arrivals)).1 = observe_all s (processed s arrivals).
Proof.
  revert s. induction arrivals as [|[p t] l IH]; intros s; [done|].
  change (datagrams ((p, t) :: l)) with (Datagram p t :: datagrams l).
  cbn [processed fst snd]. destruct (running s) eqn:Hrun.
  - rewrite receive_loop_datagram by done. by rewrite IH.
  - by rewrite receive_loop_stopped.
Qed.

Lemma elem_of_processed s arrivals a :
  a ∈ processed s arrivals -> a ∈ arrivals.
Proof.
  revert s. induction arrivals as [|[p t] l IH]; intros s; [done|].
  cbn [processed fst snd]. destruct (running s); [|by intros ?%elem_of_nil].
  intros [->|Hin]%elem_of_cons; [by left|]. right. by eapply IH.
Qed.

(** A loop that is still running after every arrival has processed all of
    them. *)
Lemma processed_running s arrivals :
  running (observe_all s arrivals) = true -> processed s arrivals = arrivals.
Proof.
  revert s. induction arrivals as [|[p t] l IH]; intros s Hrun; [done|].
  cbn [observe_all fold_left fst snd] in Hrun. fold (observe_all (observe s p t) l) in Hrun.
  cbn [processed fst snd].
  assert (running s = true) as ->.
  { destruct (running s) eqn:Hs; [done|].
    assert (forall l' s', running s' = false -> running (observe_all s' l') = false) as Hstay.
    { induction l' as [|[p' t'] l' IH']; intros s' Hs'; [done|].
      cbn [observe_all fold_left fst snd]. apply IH'.
      rewrite observe_running, Hs'. by destruct (_ && _). }
    rewrite (Hstay l (observe s p t)) in Hrun; [done|].
    rewrite observe_running, Hs. by destruct (_ && _). }
  by rewrite IH.
Qed.

Lemma observe_all_snoc s arrivals p t :
  observe_all s (arrivals ++ [(p, t)]) = observe (observe_all s arrivals) p t.
Proof. by rewrite observe_all_app. Qed.

(** The record of a request is built from the arrivals of that request
    alone. *)
Lemma observe_all_lookup arrivals s k :
  requests (observe_all s arrivals) !! k =
  match filter (fun a => int_of_u32 (request_id a.1) = k) arrivals with
  | [] => requests s !! k
  | a :: mine =>
      Some (record_all (default RequestStats0 (requests s !! k)) (a :: mine))
  end.
Proof.
  revert s. induction arrivals as [|[p t] l IH]; intros s; [done|].
  rewrite filter_cons. cbn [observe_all fold_left fst snd].
  fold (observe_all (observe s p t) l). rewrite IH.
  destruct (decide (int_of_u32 (request_id p) = k)) as [<-|Hne].
  - rewrite observe_lookup_same.
    by destruct (filter _ l).
  - by rewrite observe_lookup_other.
Qed.

Lemma record_all_received st arrivals :
  dom (received_packets (record_all st arrivals)) =
  dom (received_packets st) ∪ received_ids arrivals.
Proof.
  revert st. induction arrivals as [|[p t] l IH]; intros st.
  - replace (received_ids []) with (∅ : gset Z) by done.
    by rewrite (right_id_L ∅ (∪)).
  - change (record_all st ((p, t) :: l)) with (record_all (record_packet st p t) l).
    rewrite IH. unfold received_ids. cbn [fmap list_fmap list_to_set fst].
    unfold record_packet. cbn [received_packets]. rewrite dom_insert_L.
    apply set_eq. intros x. rewrite !elem_of_union. tauto.
Qed.

Lemma record_packet_size st p t :
  let before := size (received_packets st) in
  let after := size (received_packets (record_packet st p t)) in
  (after = before \/ after = S before) /\ (1 <= after)%nat.
Proof.
  unfold record_packet. cbn [received_packets]. cbv zeta.
  rewrite map_size_insert.
  destruct (received_packets st !! int_of_u32 (packet_id p)) eqn:E; simpl.
  - split; [by left|].
    pose proof (map_size_ne_0_lookup_2 _ _ (mk_is_Some _ _ E)). lia.
  - split; [by right|lia].
Qed.

Lemma record_packet_complete_inv n st p t :
  total_packets p = n -> complete_inv n st -> complete_inv n (record_packet st p t).
Proof.
  intros Hn Hinv. pose proof (record_packet_size st p t) as [Hsz Hpos].
  cbv zeta in Hsz, Hpos. unfold complete_inv in *.
  set (after := size (received_packets (record_packet st p t))) in *.
  assert (is_complete (record_packet st p t) =
          (Z.of_nat after =? n) || is_complete st) as ->.
  { unfold after, record_packet. cbn [is_complete received_packets]. rewrite Hn.
    by destruct (_ =? n). }
  rewrite orb_true_iff, Z.eqb_eq.
  destruct (is_complete st).
  - assert (1 <= n <= Z.of_nat (size (received_packets st))) by by apply Hinv.
    split; [lia|by right].
  - assert (~ (1 <= n <= Z.of_nat (size (received_packets st)))) as Hnot.
    { intros H. by apply Hinv in H. }
    split; [intros [?|?]; [lia|done]|]. intros ?. left. lia.
Qed.

Lemma record_all_complete_inv n arrivals st :
  (forall a, a ∈ arrivals -> total_packets a.1 = n) ->
  complete_inv n st -> complete_inv n (record_all st arrivals).
Proof.
  revert st. induction arrivals as [|[p t] l IH]; intros st Hn Hinv; [done|].
  change (record_all st ((p, t) :: l)) with (record_all (record_packet st p t) l).
  apply IH.
  - intros a Ha. apply Hn. by right.
  - apply record_packet_complete_inv; [|done]. apply (Hn (p, t)). by left.
Qed.

Lemma complete_inv_fresh n : complete_inv n RequestStats0.
Proof. unfold complete_inv. simpl. rewrite map_size_empty. split; [done|lia]. Qed.

(** A fresh request whose fragments all declare [n] fragments is complete
    exactly when [n] is positive and at least [n] distinct indices arrived. *)
Lemma request_complete_count s arrivals r n :
  requests s !! int_of_u32 r = None ->
  (forall a, a ∈ request_arrivals r arrivals -> total_packets a.1 = n) ->
  request_complete (requests (observe_all s arrivals)) r = true <->
  1 <= n <= Z.of_nat (size (received_ids (request_arrivals r arrivals))).
Proof.
  intros Hfresh Hn. unfold request_complete. rewrite observe_all_lookup.
  fold (request_arrivals r arrivals). rewrite Hfresh.
  destruct (request_arrivals r arrivals) as [|a mine] eqn:E.
  - replace (received_ids []) with (∅ : gset Z) by done.
    rewrite size_empty. split; [done|lia].
  - cbn [default].
    pose proof (record_all_complete_inv n (a :: mine) RequestStats0 Hn
                  (complete_inv_fresh n)) as Hinv.
    unfold complete_inv in Hinv. rewrite Hinv.
    rewrite <- size_dom, record_all_received.
    replace (dom (received_packets RequestStats0)) with (∅ : gset Z) by done.
    by rewrite (left_id_L ∅ (∪)).
Qed.

Lemma elem_of_received_ids arrivals x :
  x ∈ received_ids arrivals <->
  exists a, a ∈ arrivals /\ x = int_of_u32 (packet_id a.1).
Proof.
  unfold received_ids. rewrite elem_of_list_to_set, list_elem_of_fmap.
  split; intros (a & ? & ?); by exists a.
Qed.

Lemma int_keys_NoDup n : n <= UINT32_MOD -> NoDup (int_of_u32 <$> seqZ 0 n).
Proof.
  intros Hn. apply NoDup_fmap_2_strong; [|apply NoDup_seqZ].
  intros x y Hx Hy Heq. apply elem_of_seqZ in Hx, Hy.
  apply int_of_u32_inj; unfold is_u32; [lia|lia|done].
Qed.

Lemma request_complete_fragments s arrivals r n :
  requests s !! int_of_u32 r = None ->
  n < UINT32_MOD ->
  (forall a, a ∈ request_arrivals r arrivals ->
     total_packets a.1 = n /\ 0 <= packet_id a.1 < n) ->
  request_complete (requests (observe_all s arrivals)) r = true <->
  0 < n /\
  forall j, 0 <= j < n ->
    exists a, a ∈ request_arrivals r arrivals /\ packet_id a.1 = j.
Proof.
  intros Hfresh Hn Hwf.
  rewrite (request_complete_count s arrivals r n Hfresh)
    by (intros a Ha; by apply Hwf).
  set (S := received_ids (request_arrivals r arrivals)).
  set (T := list_to_set (int_of_u32 <$> seqZ 0 n) : gset Z).
  assert (S ⊆ T) as Hsub.
  { intros x (a & Ha & ->)%elem_of_received_ids.
    apply elem_of_list_to_set, list_elem_of_fmap. exists (packet_id a.1).
    split; [done|]. apply elem_of_seqZ. destruct (Hwf a Ha). lia. }
  assert (0 <= n -> Z.of_nat (size T) = n) as HT.
  { intros H0. unfold T. rewrite size_list_to_set by (apply int_keys_NoDup; lia).
    rewrite length_fmap, length_seqZ. lia. }
  split.
  - intros [H1 Hsize]. split; [lia|]. intros j Hj.
    assert (S = T) as Heq.
    { apply set_subseteq_size_eq; [done|]. specialize (HT ltac:(lia)). lia. }
    assert (int_of_u32 j ∈ S) as Hin.
    { rewrite Heq. apply elem_of_list_to_set, list_elem_of_fmap. exists j.
      split; [done|]. apply elem_of_seqZ. lia. }
    apply elem_of_received_ids in Hin as (a & Ha & Hid). exists a. split; [done|].
    destruct (Hwf a Ha) as [_ Hrange].
    symmetry. apply int_of_u32_inj; unfold is_u32; [lia|lia|done].
  - intros [Hpos Hall]. split; [lia|].
    assert (T ⊆ S) as Hsup.
    { intros x Hx. apply elem_of_list_to_set, list_elem_of_fmap in Hx as (j & -> & Hj).
      apply elem_of_seqZ in Hj. destruct (Hall j ltac:(lia)) as (a & Ha & <-).
      apply elem_of_received_ids. by exists a. }
    apply subseteq_size in Hsup. specialize (HT ltac:(lia)). lia.
Qed.

(** X1. A request is marked complete exactly when each of its fragments has
    been processed by the receive loop at least once, whatever the arrival
    order, the repetitions and the fragments of other requests in between:
    for a request not yet recorded whose processed arrivals all declare [n]
    fragments and carry indices below [n], [is_complete] is set when the
    loop has run over the arrivals iff [n > 0] and every index [0 .. n-1] is
    among the arrivals it processed (those up to the one that cleared
    [running]). *)
Theorem request_complete_iff_all_fragments s arrivals r n :
  requests s !! int_of_u32 r = None ->
  n < UINT32_MOD ->
  (forall a, a ∈ request_arrivals r (processed s arrivals) ->
     total_packets a.1 = n /\ 0 <= packet_id a.1 < n) ->
  request_complete (requests (receive_loop s (datagrams arrivals)).1) r = true <->
  0 < n /\
  forall j, 0 <= j < n ->
    exists a, a ∈ request_arrivals r (processed s arrivals) /\ packet_id a.1 = j.
Proof.
  rewrite receive_loop_processed. apply request_complete_fragments.
Qed.

Lemma request_complete_iff_all_fragments_witness :
  let arrivals :=
    [(mkPacket 1000 2 3 7 9 200, 2000); (mkPacket 1001 0 1 8 9 10, 2001);
     (mkPacket 1002 0 3 7 9 1400, 2002); (mkPacket 1003 2 3 7 9 200, 2003);
     (mkPacket 1004 1 3 7 9 1400, 2004)] in
  processed init arrivals = arrivals /\
  request_complete (requests (receive_loop init (datagrams arrivals)).1) 7 = true.
Proof.
  intros arrivals. split; [reflexivity|].
  apply (request_complete_iff_all_fragments init arrivals 7 3);
    [reflexivity | unfold UINT32_MOD; lia | |].
  - intros a Ha. vm_compute in Ha.
    repeat (apply elem_of_cons in Ha as [->|Ha]); [| | | | by apply elem_of_nil in Ha];
      simpl; lia.
  - split; [lia|]. intros j Hj.
    assert (j = 0 \/ j = 1 \/ j = 2) as [-> | [-> | ->]] by lia.
    + exists (mkPacket 1002 0 3 7 9 1400, 2002). split; [|done].
      vm_compute. apply list_elem_of_In. simpl. tauto.
    + exists (mkPacket 1004 1 3 7 9 1400, 2004). split; [|done].
      vm_compute. apply list_elem_of_In. simpl. tauto.
    + exists (mkPacket 1000 2 3 7 9 200, 2000). split; [|done].
      vm_compute. apply list_elem_of_In. simpl. tauto.
Defined.

Lemma request_arrivals_perm r arrivals arrivals' :
  arrivals ≡ₚ arrivals' -> request_arrivals r arrivals ≡ₚ request_arrivals r arrivals'.
Proof. intros H. unfold request_arrivals. by rewrite H. Qed.

Lemma received_ids_perm arrivals arrivals' :
  arrivals ≡ₚ arrivals' -> received_ids arrivals = received_ids arrivals'.
Proof.
  intros H. apply set_eq. intros x. rewrite !elem_of_received_ids.
  split; intros (a & Ha & ->); exists a; split; try done.
  - by rewrite <- H.
  - by rewrite H.
Qed.

Lemma request_complete_perm s arrivals arrivals' r n :
  arrivals ≡ₚ arrivals' ->
  requests s !! int_of_u32 r = None ->
  (forall a, a ∈ request_arrivals r arrivals -> total_packets a.1 = n) ->
  request_complete (requests (observe_all s arrivals)) r =
  request_complete (requests (observe_all s arrivals')) r.
Proof.
  intros Hperm Hfresh Hn.
  pose proof (request_arrivals_perm r _ _ Hperm) as Hmine.
  pose proof (request_complete_count s arrivals r n Hfresh Hn) as H1.
  assert (forall a, a ∈ request_arrivals r arrivals' -> total_packets a.1 = n) as Hn'.
  { intros a Ha. apply Hn. by rewrite Hmine. }
  pose proof (request_complete_count s arrivals' r n Hfresh Hn') as H2.
  rewrite <- (received_ids_perm _ _ Hmine) in H2.
  destruct (request_complete (requests (observe_all s arrivals)) r),
           (request_complete (requests (observe_all s arrivals')) r); try done.
  - symmetry. apply H2. by apply H1.
  - apply H1. by apply H2.
Qed.

(** X2. The completion flag of a request does not depend on the order in
    which the receive loop processes the datagrams: when the arrivals the
    loop processes in two runs (those up to the one that cleared [running])
    are permutations of each other, the two runs leave the same
    [is_complete] for a request not recorded before whose processed
    fragments all declare the same number of fragments. *)
Theorem request_complete_order_independent s arrivals arrivals' r n :
  processed s arrivals ≡ₚ processed s arrivals' ->
  requests s !! int_of_u32 r = None ->
  (forall a, a ∈ request_arrivals r (processed s arrivals) -> total_packets a.1 = n) ->
  request_complete (requests (receive_loop s (datagrams arrivals)).1) r =
  request_complete (requests (receive_loop s (datagrams arrivals')).1) r.
Proof.
  intros Hperm Hfresh Hn. rewrite !receive_loop_processed.
  by apply (request_complete_perm s _ _ r n).
Qed.

Lemma request_complete_order_independent_witness :
  let a0 := (mkPacket 1000 0 3 0 1 1400, 2000) in
  let a1 := (mkPacket 1001 1 3 0 1 1400, 2001) in
  let a2 := (mkPacket 1002 2 3 0 1 200, 2002) in
  processed init [a2; a0; a1] = [a2; a0; a1] /\
  processed init [a0; a1; a2] = [a0; a1; a2] /\
  request_complete (requests (receive_loop init (datagrams [a2; a0; a1])).1) 0 =
  request_complete (requests (receive_loop init (datagrams [a0; a1; a2])).1) 0.
Proof.
  intros a0 a1 a2. split; [reflexivity|]. split; [reflexivity|].
  apply (request_complete_order_independent init [a2; a0; a1] [a0; a1; a2] 0 3).
  - change (processed init [a2; a0; a1]) with [a2; a0; a1].
    change (processed init [a0; a1; a2]) with [a0; a1; a2].
    etrans; [apply perm_swap|]. apply perm_skip, perm_swap.
  - reflexivity.
  - intros a Ha. vm_compute in Ha.
    repeat (apply elem_of_cons in Ha as [->|Ha]); [| | | by apply elem_of_nil in Ha];
      reflexivity.
Defined.

Lemma observe_all_highest arrivals s :
  0 <= highest_request_id s ->
  (forall a, a ∈ arrivals -> 0 <= request_id a.1) ->
  highest_request_id (observe_all s arrivals) =
  Z.max (highest_request_id s) (max_request_id arrivals).
Proof.
  revert s. induction arrivals as [|[p t] l IH]; intros s Hs Hall.
  - simpl. lia.
  - cbn [observe_all fold_left fst snd]. fold (observe_all (observe s p t) l).
    assert (0 <= request_id p) as Hp by (apply (Hall (p, t)); by left).
    assert (highest_request_id (observe s p t) =
            Z.max (highest_request_id s) (request_id p)) as Hstep.
    { rewrite observe_highest.
      destruct (Z.gtb_spec (request_id p) (highest_request_id s)); lia. }
    rewrite IH; [|lia|intros a Ha; apply Hall; by right].
    rewrite Hstep. cbn [max_request_id foldr fst]. fold (max_request_id l). lia.
Qed.

Lemma observe_all_dom arrivals s :
  dom (requests (observe_all s arrivals)) = dom (requests s) ∪ request_keys arrivals.
Proof.
  revert s. induction arrivals as [|[p t] l IH]; intros s.
  - replace (request_keys []) with (∅ : gset Z) by done.
    by rewrite (right_id_L ∅ (∪)).
  - cbn [observe_all fold_left fst snd]. fold (observe_all (observe s p t) l).
    rewrite IH. unfold request_keys. cbn [fmap list_fmap list_to_set fst].
    rewrite observe_requests, dom_insert_L.
    apply set_eq. intros x. rewrite !elem_of_union. tauto.
Qed.

Lemma elem_of_request_keys arrivals k :
  k ∈ request_keys arrivals <->
  exists a, a ∈ arrivals /\ k = int_of_u32 (request_id a.1).
Proof.
  unfold request_keys. rewrite elem_of_list_to_set, list_elem_of_fmap.
  split; intros (a & ? & ?); by exists a.
Qed.

Lemma write_results_ids reqs :
  row_request_id <$> write_results reqs = u32_of_int <$> (map_entries reqs).*1.
Proof.
  unfold write_results. rewrite <- !list_fmap_compose.
  apply list_fmap_ext. by intros _ [k st] _.
Qed.

Lemma observe_all_row_ids arrivals :
  Forall (fun a => wf_packet a.1) arrivals ->
  let ids := row_request_id <$> write_results (requests (observe_all init arrivals)) in
  NoDup ids /\
  (forall id, id ∈ ids <-> exists a, a ∈ arrivals /\ request_id a.1 = id) /\
  length ids = size (request_keys arrivals).
Proof.
  intros Hwf. cbv zeta. rewrite write_results_ids.
  set (m := requests (observe_all init arrivals)).
  assert (forall k, k ∈ (map_entries m).*1 <->
            exists a, a ∈ arrivals /\ k = int_of_u32 (request_id a.1)) as Hkeys.
  { intros k. rewrite <- elem_of_request_keys.
    replace (request_keys arrivals) with (dom m)
      by (unfold m; rewrite observe_all_dom; simpl; by rewrite dom_empty_L, (left_id_L ∅ (∪))).
    rewrite elem_of_dom, list_elem_of_fmap. split.
    - intros ([k' st] & -> & Hin). apply elem_of_map_entries in Hin. by exists st.
    - intros [st Hst]. exists (k, st). split; [done|]. by apply elem_of_map_entries. }
  assert (forall a, a ∈ arrivals -> is_u32 (request_id a.1)) as Hu32.
  { intros a Ha. rewrite Forall_forall in Hwf. by destruct (Hwf a Ha) as (_ & _ & _ & ? & _). }
  split; [|split].
  - apply NoDup_fmap_2_strong; [|apply map_entries_NoDup_keys].
    intros k1 k2 (a1 & Ha1 & ->)%Hkeys (a2 & Ha2 & ->)%Hkeys Heq.
    rewrite !u32_of_int_of_u32 in Heq by by apply Hu32.
    by rewrite Heq.
  - intros id. rewrite list_elem_of_fmap. split.
    + intros (k & -> & (a & Ha & ->)%Hkeys). exists a. split; [done|].
      symmetry. apply u32_of_int_of_u32. by apply Hu32.
    + intros (a & Ha & <-). exists (int_of_u32 (request_id a.1)). split.
      * symmetry. apply u32_of_int_of_u32. by apply Hu32.
      * apply Hkeys. by exists a.
  - rewrite !length_fmap, map_entries_length.
    rewrite <- size_dom. unfold m. rewrite observe_all_dom. simpl.
    by rewrite dom_empty_L, (left_id_L ∅ (∪)).
Qed.

(** X3. The results of the datagram client have exactly one row per
    distinct request id the receive loop has processed, whether or not the
    request is complete: when the loop has run over well-formed arrivals,
    the request-id column has no repetition and holds precisely the ids
    that occur among the arrivals it processed (those up to the one that
    cleared [running]); a datagram that arrives after the loop has stopped
    adds no row. *)
Theorem udp_results_one_row_per_request arrivals :
  Forall (fun a => wf_packet a.1) arrivals ->
  let ids := row_request_id <$>
               write_results (requests (receive_loop init (datagrams arrivals)).1) in
  NoDup ids /\
  (forall id, id ∈ ids <->
     exists a, a ∈ processed init arrivals /\ request_id a.1 = id) /\
  length ids = size (request_keys (processed init arrivals)).
Proof.
  intros Hwf. rewrite receive_loop_processed. apply observe_all_row_ids.
  rewrite Forall_forall in *. intros a Ha. by apply Hwf, (elem_of_processed init).
Qed.

Lemma udp_results_one_row_per_request_witness :
  let a0 := (mkPacket 1000 0 1 0 1 10, 2000) in
  let a1 := (mkPacket 1001 0 1 1 2 10, 2001) in
  Forall (fun a => wf_packet a.1) [a0; a1] /\
  processed init [a0; a1] = [a0] /\
  client_main (datagrams [a0; a1]) = Some [mkRow 0 1000 0] /\
  NoDup (row_request_id <$>
           write_results (requests (receive_loop init (datagrams [a0; a1])).1)) /\
  (1 ∈ row_request_id <$>
         write_results (requests (receive_loop init (datagrams [a0; a1])).1) <->
   exists a, a ∈ processed init [a0; a1] /\ request_id a.1 = 1).
Proof.
  intros a0 a1.
  assert (Forall (fun a => wf_packet a.1) [a0; a1]) as Hwf.
  { repeat constructor; simpl; unfold UINT64_MOD, UINT32_MOD; lia. }
  split; [exact Hwf|]. split; [reflexivity|]. split; [reflexivity|].
  destruct (udp_results_one_row_per_request [a0; a1] Hwf) as (Hnodup & Hids & _).
  split; [exact Hnodup|exact (Hids 1)].
Defined.

(** X4. The rows are written in ascending order of request id when the ids
    observed do not exceed [INT_MAX] (the keys of [requests] are [int]). *)
Theorem udp_results_ascending arrivals :
  (forall a, a ∈ arrivals -> 0 <= request_id a.1 <= INT_MAX) ->
  Sorted Z.le (row_request_id <$> write_results (requests (observe_all init arrivals))).
Proof.
  intros Hrange. rewrite write_results_ids.
  set (m := requests (observe_all init arrivals)).
  assert (forall k, k ∈ (map_entries m).*1 -> 0 <= k <= INT_MAX) as Hkeys.
  { intros k ([k' st] & -> & Hin%elem_of_map_entries)%list_elem_of_fmap.
    assert (k' ∈ dom m) as Hdom by (apply elem_of_dom; by exists st).
    unfold m in Hdom. rewrite observe_all_dom in Hdom. simpl in Hdom.
    rewrite dom_empty_L, (left_id_L ∅ (∪)) in Hdom.
    apply elem_of_request_keys in Hdom as (a & Ha & ->).
    rewrite int_of_u32_small by by apply Hrange. by apply Hrange. }
  assert (u32_of_int <$> (map_entries m).*1 = (map_entries m).*1) as ->.
  { transitivity (id <$> (map_entries m).*1); [|apply list_fmap_id].
    apply list_fmap_ext. intros i k Hk.
    assert (0 <= k <= INT_MAX) as Hr by (apply Hkeys; by eapply list_elem_of_lookup_2).
    unfold u32_of_int, UINT32_MOD, INT_MAX, id in *. apply Z.mod_small. lia. }
  apply (Sorted_fmap fst key_le Z.le); [by intros x y|apply map_entries_sorted].
Qed.

Lemma udp_results_ascending_witness :
  let arrivals :=
    [(mkPacket 1000 0 2 5 9 1400, 2000); (mkPacket 1001 0 1 3 9 10, 2001);
     (mkPacket 1002 0 2 12 9 1400, 2002)] in
  Sorted Z.le (row_request_id <$> write_results (requests (observe_all init arrivals))).
Proof.
  intros arrivals. apply (udp_results_ascending arrivals).
  intros a Ha. unfold INT_MAX.
  repeat (apply elem_of_cons in Ha as [->|Ha]); [| | | by apply elem_of_nil in Ha];
    simpl; lia.
Defined.

(** *** The receive loop over a session *)

Lemma observe_stops s p t :
  running s = true -> running (observe s p t) = false ->
  0 < main_total_requests (observe s p t) /\
  highest_request_id (observe s p t) = main_total_requests (observe s p t) - 1 /\
  all_complete (requests (observe s p t)) (main_total_requests (observe s p t)) = true.
Proof.
  intros Hrun Hstop. rewrite observe_running, Hrun in Hstop.
  destruct (Z.ltb_spec 0 (main_total_requests (observe s p t))); [|done].
  destruct (Z.eqb_spec (highest_request_id (observe s p t))
                       (main_total_requests (observe s p t) - 1)); [|done].
  by destruct (all_complete _ _).
Qed.

Lemma observe_stops_when s p t :
  0 < main_total_requests (observe s p t) ->
  highest_request_id (observe s p t) = main_total_requests (observe s p t) - 1 ->
  all_complete (requests (observe s p t)) (main_total_requests (observe s p t)) = true ->
  running (observe s p t) = false.
Proof.
  intros Hpos Hhigh Hall. rewrite observe_running, Hall, Hhigh, Z.eqb_refl.
  by destruct (Z.ltb_spec 0 (main_total_requests (observe s p t))); [|lia].
Qed.

(** When [running] is cleared during some arrivals, one of them cleared it. *)
Lemma running_cleared_at s arrivals :
  running s = true -> running (observe_all s arrivals) = false ->
  exists before a after,
    arrivals = before ++ a :: after /\
    running (observe_all s before) = true /\
    running (observe_all s (before ++ [a])) = false.
Proof.
  revert s. induction arrivals as [|[p t] l IH]; intros s Hrun Hstop.
  - simpl in Hstop. congruence.
  - destruct (running (observe s p t)) eqn:Hstep.
    + destruct (IH (observe s p t) Hstep Hstop) as (before & a & after & -> & Hb & Ha).
      exists ((p, t) :: before), a, after. done.
    + exists [], (p, t), l. done.
Qed.

(** The state in which the receive loop leaves a script of datagrams is the
    one reached by observing them up to the first that clears [running]. *)
Lemma receive_loop_datagrams s arrivals :
  running s = true -> arrivals <> [] ->
  exists before a after,
    arrivals = before ++ a :: after /\
    running (observe_all s before) = true /\
    (receive_loop s (datagrams arrivals)).1 = observe_all s (before ++ [a]) /\
    (after = [] \/ running (observe_all s (before ++ [a])) = false).
Proof.
  revert s. induction arrivals as [|[p t] l IH]; intros s Hrun Hne; [done|].
  change (datagrams ((p, t) :: l)) with (Datagram p t :: datagrams l).
  rewrite receive_loop_datagram by done.
  destruct l as [|a' l'].
  - exists [], (p, t), []. repeat split; try done. by left.
  - destruct (running (observe s p t)) eqn:Hstep.
    + destruct (IH (observe s p t) Hstep ltac:(done))
        as (before & a & after & Heq & Hb & Hfinal & Hlast).
      exists ((p, t) :: before), a, after.
      split; [by rewrite Heq|]. split; [exact Hb|]. split; [exact Hfinal|exact Hlast].
    + exists [], (p, t), (a' :: l'). repeat split; try done.
      * by rewrite receive_loop_stopped.
      * by right.
Qed.

Lemma observe_total_ge s p t :
  total_requests p <= main_total_requests (observe s p t).
Proof.
  rewrite observe_total.
  destruct (Z.eqb_spec (main_total_requests s) 0);
    destruct (Z.gtb_spec (total_requests p) (main_total_requests s)); simpl; lia.
Qed.

Lemma elem_of_request_arrivals r arrivals a :
  a ∈ request_arrivals r arrivals <->
  int_of_u32 (request_id a.1) = int_of_u32 r /\ a ∈ arrivals.
Proof. unfold request_arrivals. by rewrite list_elem_of_filter. Qed.

Lemma lost_fragment_running arrivals r n j :
  0 <= r -> n < UINT32_MOD ->
  (forall a, a ∈ arrivals -> r < total_requests a.1) ->
  (forall a, a ∈ request_arrivals r arrivals ->
     total_packets a.1 = n /\ 0 <= packet_id a.1 < n) ->
  0 <= j < n ->
  (forall a, a ∈ request_arrivals r arrivals -> packet_id a.1 <> j) ->
  running (observe_all init arrivals) = true.
Proof.
  intros Hr Hn Htotal Hwf Hj Hlost.
  destruct (running (observe_all init arrivals)) eqn:Hstop; [done|exfalso].
  destruct (running_cleared_at init arrivals eq_refl Hstop)
    as (before & [p t] & after & -> & Hb & Ha).
  rewrite observe_all_snoc in Ha.
  destruct (observe_stops _ p t Hb Ha) as (_ & _ & Hall).
  rewrite <- observe_all_snoc in Hall.
  assert (r < main_total_requests (observe_all init (before ++ [(p, t)]))) as Hlt.
  { rewrite observe_all_snoc.
    pose proof (observe_total_ge (observe_all init before) p t).
    assert (r < total_requests p); [|lia].
    apply (Htotal (p, t)). apply elem_of_app. right. by left. }
  assert (forall a, a ∈ request_arrivals r (before ++ [(p, t)]) ->
            a ∈ request_arrivals r (before ++ (p, t) :: after)) as Hsub.
  { intros a [Hk Hin]%elem_of_request_arrivals. apply elem_of_request_arrivals.
    split; [done|]. apply elem_of_app in Hin as [?|Hin]; apply elem_of_app; [by left|].
    right. apply list_elem_of_singleton in Hin as ->. by left. }
  pose proof (proj1 (all_complete_spec _ _) Hall r ltac:(lia)) as Hcomplete.
  apply (request_complete_fragments init (before ++ [(p, t)]) r n) in Hcomplete;
    [|done|done|by intros a Ha'; apply Hwf, Hsub].
  destruct Hcomplete as [_ Hevery].
  destruct (Hevery j Hj) as (a & Ha' & Hid).
  by apply (Hlost a (Hsub a Ha')).
Qed.

(** X5. If one fragment of a declared request never arrives, the datagram
    client never ends by itself: when every arrival declares more than [r]
    requests, the fragments of request [r] declare [n] fragments and carry
    indices below [n], and index [j < n] of request [r] is not among the
    arrivals, [running] is still set after the arrivals and the receive loop
    has not left the script, whatever else arrives and however often. *)
Theorem lost_fragment_never_terminates arrivals r n j :
  0 <= r -> n < UINT32_MOD ->
  (forall a, a ∈ arrivals -> r < total_requests a.1) ->
  (forall a, a ∈ request_arrivals r arrivals ->
     total_packets a.1 = n /\ 0 <= packet_id a.1 < n) ->
  0 <= j < n ->
  (forall a, a ∈ request_arrivals r arrivals -> packet_id a.1 <> j) ->
  running (observe_all init arrivals) = true /\
  client_main (datagrams arrivals) = None.
Proof.
  intros Hr Hn Htotal Hwf Hj Hlost.
  split; [by apply (lost_fragment_running arrivals r n j)|].
  unfold client_main.
  destruct arrivals as [|a0 l]; [done|].
  destruct (receive_loop_datagrams init (a0 :: l) eq_refl ltac:(done))
    as (before & a & after & Heq & _ & -> & _).
  assert (forall x, x ∈ before ++ [a] -> x ∈ a0 :: l) as Hsub.
  { intros x Hx. rewrite Heq. apply elem_of_app in Hx as [?|Hx]; apply elem_of_app;
      [by left|]. right. apply list_elem_of_singleton in Hx as ->. by left. }
  assert (forall x, x ∈ request_arrivals r (before ++ [a]) ->
            x ∈ request_arrivals r (a0 :: l)) as Hsub'.
  { intros x [Hk Hin]%elem_of_request_arrivals. apply elem_of_request_arrivals.
    split; [done|by apply Hsub]. }
  rewrite (lost_fragment_running (before ++ [a]) r n j); try done.
  - intros x Hx. by apply Htotal, Hsub.
  - intros x Hx. by apply Hwf, Hsub'.
  - intros x Hx. by apply Hlost, Hsub'.
Qed.

Lemma lost_fragment_never_terminates_witness :
  let arrivals :=
    [(mkPacket 1000 0 2 0 2 1400, 2000); (mkPacket 1001 1 2 0 2 100, 2001);
     (mkPacket 1002 1 2 1 2 100, 2002); (mkPacket 1002 1 2 1 2 100, 2003)] in
  running (observe_all init arrivals) = true /\
  client_main (datagrams arrivals) = None.
Proof.
  intros arrivals.
  apply (lost_fragment_never_terminates arrivals 1 2 0);
    [lia | unfold UINT32_MOD; lia | | | lia |].
  - intros a Ha.
    repeat (apply elem_of_cons in Ha as [->|Ha]); [| | | | by apply elem_of_nil in Ha];
      simpl; lia.
  - intros a Ha. vm_compute in Ha.
    repeat (apply elem_of_cons in Ha as [->|Ha]); [| | by apply elem_of_nil in Ha];
      simpl; lia.
  - intros a Ha. vm_compute in Ha.
    repeat (apply elem_of_cons in Ha as [->|Ha]); [| | by apply elem_of_nil in Ha];
      simpl; lia.
Defined.

End UdpSessions.

(** ** A whole datagram session: the server's packets at the client *)

Section UdpServerPackets.
Import Udp.

Variable M : Z.
Hypothesis M_pos : 0 < M.

(** What [send_request] hands to the transport, packet by packet. *)
Lemma send_request_sized_packets clock bytes_to_send rid tr :
  0 < bytes_to_send -> bytes_to_send + M <= INT_MAX ->
  0 <= rid < UINT32_MOD -> 0 <= tr < UINT32_MOD ->
  exists packets,
    send_request_sized M clock bytes_to_send rid tr = Some packets /\
    Z.of_nat (length packets) = (bytes_to_send + M - 1) / M /\
    0 < (bytes_to_send + M - 1) / M < UINT32_MOD /\
    forall k p, packets !! k = Some p ->
      packet_id p = Z.of_nat k /\ total_packets p = (bytes_to_send + M - 1) / M /\
      request_id p = rid /\ total_requests p = tr /\ timestamp p = clock k.
Proof.
  intros Hb Hmax Hrid Htr. unfold send_request_sized.
  destruct (Z.leb_spec (bytes_to_send + M) INT_MAX) as [_|]; [|lia].
  rewrite Z.quot_div_nonneg by lia.
  set (N := (bytes_to_send + M - 1) / M).
  pose proof (ceil_div_bounds M M_pos bytes_to_send Hb) as Hceil. fold N in Hceil.
  assert (0 < N) as HN by nia.
  assert (N <= bytes_to_send) as HNb by nia.
  destruct (Z.ltb_spec N 0) as [|_]; [lia|].
  eexists. split; [reflexivity|].
  assert (Z.of_nat (length (send_all clock
            (prepare M (Z.to_nat N) 0 bytes_to_send N rid tr))) = N) as Hlen.
  { unfold send_all. rewrite length_imap, prepare_length. lia. }
  split; [done|]. split; [unfold UINT32_MOD, INT_MAX in *; lia|].
  destruct (prepare_spec M M_pos (Z.to_nat N) 0 bytes_to_send N rid tr) as [_ Hpk];
    [lia | lia | left; rewrite Z2Nat.id by lia; done | lia
    | rewrite Z2Nat.id by lia; unfold UINT32_MOD, INT_MAX in *; lia |].
  intros k p Hk.
  apply send_all_lookup in Hk as (q & Hq & Hts & Hid & Htp & Hr & Ht & _).
  destruct (Hpk k q Hq) as (Hid' & Htp' & Hr' & Ht' & _).
  unfold u32_of_int, UINT32_MOD, INT_MAX in *.
  rewrite Z.mod_small in Htp', Hr', Ht' by lia.
  repeat split; try congruence. lia.
Qed.

End UdpServerPackets.

Section UdpWholeSession.
Import Udp.

Implicit Types (s : State) (p : Packet) (arrivals : list (Packet * Z)).

Lemma send_requests_packets clock bytes_to_send num n i :
  0 < bytes_to_send -> bytes_to_send + MAX_PACKET_SIZE <= INT_MAX ->
  0 <= num <= INT_MAX -> 0 <= i -> i + Z.of_nat n <= num ->
  let N := (bytes_to_send + MAX_PACKET_SIZE - 1) / MAX_PACKET_SIZE in
  exists packets,
    send_requests clock bytes_to_send num i n = Some packets /\
    Z.of_nat (length packets) = Z.of_nat n * N /\
    (forall p, p ∈ packets ->
       i <= request_id p < i + Z.of_nat n /\ 0 <= packet_id p < N /\
       total_packets p = N /\ total_requests p = num) /\
    (forall r j, i <= r < i + Z.of_nat n -> 0 <= j < N ->
       exists p, p ∈ packets /\ request_id p = r /\ packet_id p = j).
Proof.
  intros Hb Hmax Hnum. cbv zeta. revert i.
  induction n as [|n IH]; intros i Hi Hin.
  - exists []. split; [done|]. split; [simpl; lia|]. split.
    + intros p Hp. by apply elem_of_nil in Hp.
    + intros r j Hr. simpl in Hr. lia.
  - rewrite Nat2Z.inj_succ in Hin |- *. cbn [send_requests]. unfold send_request.
    destruct (send_request_sized_packets MAX_PACKET_SIZE ltac:(done)
                (clock (Z.to_nat i)) bytes_to_send i num)
      as (sent & -> & Hlen & HN & Hsent);
      [done | done | unfold UINT32_MOD, INT_MAX in *; lia
      | unfold UINT32_MOD, INT_MAX in *; lia |].
    destruct (IH (i + 1)) as (rest & -> & Hlen' & Hrest & Hcover); [lia|lia|].
    exists (sent ++ rest). split; [done|]. split; [rewrite length_app; nia|]. split.
    + intros p [Hp|Hp]%elem_of_app.
      * apply list_elem_of_lookup in Hp as [k Hk].
        pose proof (lookup_lt_Some _ _ _ Hk) as Hlt.
        destruct (Hsent k p Hk) as (-> & -> & -> & -> & _). lia.
      * destruct (Hrest p Hp) as (? & ? & ? & ?). lia.
    + intros r j Hr Hj. destruct (decide (r = i)) as [->|Hne].
      * destruct (lookup_lt_is_Some_2 sent (Z.to_nat j) ltac:(lia)) as [p Hp].
        exists p. split; [apply elem_of_app; left; by eapply list_elem_of_lookup_2|].
        destruct (Hsent _ p Hp) as (-> & _ & -> & _). lia.
      * destruct (Hcover r j ltac:(lia) Hj) as (p & Hp & ? & ?).
        exists p. split; [apply elem_of_app; by right|done].
Qed.

(** X6. [main] of the datagram server sends, for [num_requests] requests of
    [bytes_to_send > 0] bytes, exactly [num_requests * ceil(bytes_to_send /
    1400)] packets: one for every request id below [num_requests] and every
    fragment index below the fragment count, each declaring that count and
    [num_requests]. *)
Theorem udp_server_main_packets clock bytes_to_send num_requests :
  0 < bytes_to_send -> bytes_to_send + MAX_PACKET_SIZE <= INT_MAX ->
  0 <= num_requests <= INT_MAX ->
  let N := (bytes_to_send + MAX_PACKET_SIZE - 1) / MAX_PACKET_SIZE in
  exists packets,
    server_main clock bytes_to_send num_requests = Some packets /\
    Z.of_nat (length packets) = num_requests * N /\
    (forall p, p ∈ packets -> session_packet num_requests N p) /\
    (forall r j, 0 <= r < num_requests -> 0 <= j < N ->
       exists p, p ∈ packets /\ request_id p = r /\ packet_id p = j).
Proof.
  intros Hb Hmax Hnum. cbv zeta. unfold server_main.
  destruct (send_requests_packets clock bytes_to_send num_requests
              (Z.to_nat num_requests) 0 Hb Hmax Hnum ltac:(lia) ltac:(lia))
    as (packets & Hsend & Hlen & Hall & Hcover).
  rewrite Z2Nat.id in Hlen, Hall, Hcover by lia.
  exists packets. split; [done|]. split; [lia|]. split.
  - intros p Hp. destruct (Hall p Hp) as (? & ? & ? & ?). unfold session_packet. lia.
  - intros r j Hr Hj. apply Hcover; lia.
Qed.

Lemma udp_server_main_packets_witness :
  exists packets,
    server_main (fun i k => 5000 + 100 * Z.of_nat i + Z.of_nat k) 3000 2 = Some packets /\
    (fun p => (request_id p, packet_id p, data_size p)) <$> packets =
      [(0, 0, 1400); (0, 1, 1400); (0, 2, 200); (1, 0, 1400); (1, 1, 1400); (1, 2, 200)].
Proof.
  destruct (udp_server_main_packets (fun i k => 5000 + 100 * Z.of_nat i + Z.of_nat k) 3000 2)
    as (packets & Hsend & _);
    [lia | unfold MAX_PACKET_SIZE, INT_MAX; lia | unfold INT_MAX; lia |].
  exists packets. split; [exact Hsend|].
  vm_compute in Hsend. injection Hsend as <-. reflexivity.
Defined.

Lemma Sorted_seqZ_nat k m : Sorted Z.le (seqZ m (Z.of_nat k)).
Proof.
  revert m. induction k as [|k IH]; intros m; [constructor|].
  rewrite seqZ_cons by lia.
  replace (Z.pred (Z.of_nat (S k))) with (Z.of_nat k) by lia.
  constructor; [apply IH|].
  destruct k as [|k]; [constructor|].
  rewrite seqZ_cons by lia. constructor. lia.
Qed.

Lemma Sorted_seqZ m n : Sorted Z.le (seqZ m n).
Proof.
  destruct (Z.le_gt_cases n 0) as [Hn|Hn].
  - unfold seqZ. replace (Z.to_nat n) with O by lia. constructor.
  - rewrite <- (Z2Nat.id n) by lia. apply Sorted_seqZ_nat.
Qed.

Lemma observe_all_total_const arrivals s T :
  (forall a, a ∈ arrivals -> total_requests a.1 = T) ->
  main_total_requests s = T ->
  main_total_requests (observe_all s arrivals) = T.
Proof.
  revert s. induction arrivals as [|[p t] l IH]; intros s Hall Hs; [done|].
  cbn [observe_all fold_left fst snd]. fold (observe_all (observe s p t) l).
  apply IH; [intros a Ha; apply Hall; by right|].
  pose proof (Hall (p, t) ltac:(by left)) as Hp. cbn [fst] in Hp.
  rewrite observe_total, Hs, Hp. by destruct (_ || _).
Qed.

Lemma observe_all_total_session arrivals T :
  arrivals <> [] ->
  (forall a, a ∈ arrivals -> total_requests a.1 = T) ->
  main_total_requests (observe_all init arrivals) = T.
Proof.
  destruct arrivals as [|[p t] l]; [done|]. intros _ Hall.
  cbn [observe_all fold_left fst snd]. fold (observe_all (observe init p t) l).
  apply observe_all_total_const; [intros a Ha; apply Hall; by right|].
  rewrite observe_total. simpl. apply (Hall (p, t)). by left.
Qed.

Lemma max_request_id_bound arrivals top :
  0 <= top ->
  (forall a, a ∈ arrivals -> request_id a.1 <= top) ->
  max_request_id arrivals <= top.
Proof.
  intros Htop. induction arrivals as [|[p t] l IH]; intros Hall; simpl; [lia|].
  pose proof (Hall (p, t) ltac:(by left)) as Hp. simpl in Hp.
  fold (max_request_id l).
  assert (max_request_id l <= top) by (apply IH; intros a Ha; apply Hall; by right).
  lia.
Qed.

Lemma max_request_id_reached arrivals a :
  a ∈ arrivals -> request_id a.1 <= max_request_id arrivals.
Proof.
  induction arrivals as [|[p t] l IH]; intros Ha; [by apply elem_of_nil in Ha|].
  cbn [max_request_id foldr fst]. fold (max_request_id l).
  apply elem_of_cons in Ha as [->|Ha]; [simpl; lia|].
  specialize (IH Ha). lia.
Qed.

(** The tracker's state once every fragment of a session has arrived. *)
Lemma session_delivered_state arrivals num n :
  0 < num <= INT_MAX -> n < UINT32_MOD ->
  (forall a, a ∈ arrivals -> session_packet num n a.1) ->
  (forall r j, 0 <= r < num -> 0 <= j < n ->
     exists a, a ∈ arrivals /\ request_id a.1 = r /\ packet_id a.1 = j) ->
  0 < n ->
  main_total_requests (observe_all init arrivals) = num /\
  highest_request_id (observe_all init arrivals) = num - 1 /\
  all_complete (requests (observe_all init arrivals)) num = true.
Proof.
  intros Hnum Hn Hall Hcover Hpos.
  destruct (Hcover 0 0 ltac:(lia) ltac:(lia)) as (a0 & Ha0 & _).
  split; [|split].
  - apply observe_all_total_session; [by intros ->; apply elem_of_nil in Ha0|].
    intros a Ha. by destruct (Hall a Ha) as (_ & _ & _ & ?).
  - rewrite observe_all_highest; [|simpl; lia|].
    + destruct (Hcover (num - 1) 0 ltac:(lia) ltac:(lia)) as (a & Ha & Hr & _).
      pose proof (max_request_id_reached arrivals a Ha) as Hge.
      pose proof (max_request_id_bound arrivals (num - 1) ltac:(lia)) as Hle.
      simpl. rewrite Hr in Hge.
      assert (max_request_id arrivals <= num - 1); [|lia].
      apply Hle. intros x Hx. destruct (Hall x Hx) as (? & _). lia.
    + intros a Ha. destruct (Hall a Ha) as (? & _). lia.
  - apply all_complete_spec. intros r Hr.
    apply (request_complete_fragments init arrivals r n); [done|done| |].
    + intros a [Hk Ha]%elem_of_request_arrivals.
      destruct (Hall a Ha) as (_ & ? & ? & _). done.
    + split; [done|]. intros j Hj.
      destruct (Hcover r j Hr Hj) as (a & Ha & Har & Haj).
      exists a. split; [|done]. apply elem_of_request_arrivals. by rewrite Har.
Qed.

(** X7. A whole session, delivered without loss in any order and with any
    repetitions, ends the client by itself: when the arrivals are exactly
    the packets that the server's [main] sends for [num_requests > 0]
    requests of [bytes_to_send > 0] bytes, the client's receive loop
    terminates and the final results file has one row per request, for the
    request ids 0, 1, ..., [num_requests - 1] in this order. *)
Theorem udp_session_any_order clock bytes_to_send num_requests :
  0 < bytes_to_send -> bytes_to_send + MAX_PACKET_SIZE <= INT_MAX ->
  0 < num_requests <= INT_MAX ->
  exists packets,
    server_main clock bytes_to_send num_requests = Some packets /\
    forall arrivals,
      (forall p, p ∈ arrivals.*1 <-> p ∈ packets) ->
      exists rows,
        client_main (datagrams arrivals) = Some rows /\
        row_request_id <$> rows = seqZ 0 num_requests.
Proof.
  intros Hb Hmax Hnum. unfold server_main.
  destruct (send_requests_packets clock bytes_to_send num_requests
              (Z.to_nat num_requests) 0 Hb Hmax ltac:(lia) ltac:(lia) ltac:(lia))
    as (packets & Hsend & _ & Hall & Hcover).
  rewrite Z2Nat.id in Hall, Hcover by lia.
  set (N := (bytes_to_send + MAX_PACKET_SIZE - 1) / MAX_PACKET_SIZE) in *.
  assert (0 < N < UINT32_MOD) as HN.
  { pose proof (ceil_div_bounds MAX_PACKET_SIZE ltac:(done) bytes_to_send Hb) as Hc.
    fold N in Hc. unfold MAX_PACKET_SIZE, UINT32_MOD, INT_MAX in *. nia. }
  exists packets. split; [done|]. intros arrivals Hsame.
  assert (forall a, a ∈ arrivals -> session_packet num_requests N a.1) as Hpk.
  { intros a Ha. assert (a.1 ∈ packets) as Hp
      by (apply Hsame, list_elem_of_fmap; by exists a).
    destruct (Hall _ Hp) as (? & ? & ? & ?). unfold session_packet. lia. }
  assert (forall r j, 0 <= r < num_requests -> 0 <= j < N ->
            exists a, a ∈ arrivals /\ request_id a.1 = r /\ packet_id a.1 = j) as Hcov.
  { intros r j Hr Hj. destruct (Hcover r j ltac:(lia) Hj) as (p & Hp & ? & ?).
    apply Hsame, list_elem_of_fmap in Hp as (a & -> & Ha). by exists a. }
  assert (arrivals <> []) as Hne.
  { destruct (Hcov 0 0 ltac:(lia) ltac:(lia)) as (a & Ha & _).
    intros ->. by apply elem_of_nil in Ha. }
  destruct (receive_loop_datagrams init arrivals eq_refl Hne)
    as (before & a & after & Heq & Hb' & Hfinal & Hlast).
  set (s' := observe_all init (before ++ [a])) in *.
  assert (forall x, x ∈ before ++ [a] -> x ∈ arrivals) as Hsub.
  { intros x Hx. rewrite Heq. apply elem_of_app in Hx as [?|Hx]; apply elem_of_app;
      [by left|]. right. apply list_elem_of_singleton in Hx as ->. by left. }
  assert (main_total_requests s' = num_requests) as Htotal.
  { apply observe_all_total_session; [by destruct before|].
    intros x Hx. by destruct (Hpk x (Hsub x Hx)) as (_ & _ & _ & ?). }
  assert (running s' = false /\ all_complete (requests s') num_requests = true)
    as [Hstop Hcomplete].
  { destruct Hlast as [->|Hstop].
    - assert (arrivals = before ++ [a]) as Harr by done.
      destruct (session_delivered_state arrivals num_requests N) as (Ht & Hh & Hc);
        [done|lia|done|done|lia|].
      rewrite Harr in Ht, Hh, Hc. fold s' in Ht, Hh, Hc. split; [|done].
      unfold s' in *. destruct a as [p t]. rewrite observe_all_snoc in *.
      apply observe_stops_when; [lia|lia|by rewrite Ht].
    - split; [done|]. unfold s' in *. destruct a as [p t].
      rewrite observe_all_snoc in *.
      destruct (observe_stops _ p t Hb' Hstop) as (_ & _ & Hc). by rewrite Htotal in Hc. }
  exists (write_results (requests s')). split.
  { unfold client_main. by rewrite Hfinal, Hstop. }
  rewrite write_results_ids.
  assert ((map_entries (requests s')).*1 = seqZ 0 num_requests) as ->.
  { apply (Sorted_unique Z.le).
    - apply (Sorted_fmap fst key_le Z.le); [by intros x y|apply map_entries_sorted].
    - apply Sorted_seqZ.
    - apply NoDup_Permutation; [apply map_entries_NoDup_keys|apply NoDup_seqZ|].
      intros k. rewrite elem_of_seqZ. split.
      + intros ([k' st] & -> & Hin%elem_of_map_entries)%list_elem_of_fmap.
        assert (k' ∈ dom (requests s')) as Hdom by (apply elem_of_dom; by exists st).
        unfold s' in Hdom. rewrite observe_all_dom in Hdom. simpl in Hdom.
        rewrite dom_empty_L, (left_id_L ∅ (∪)) in Hdom.
        apply elem_of_request_keys in Hdom as (x & Hx & ->).
        destruct (Hpk x (Hsub x Hx)) as (? & _).
        rewrite int_of_u32_small by lia. simpl. lia.
      + intros Hk.
        pose proof (proj1 (all_complete_spec _ _) Hcomplete k ltac:(lia)) as Hc.
        apply request_complete_spec in Hc as (st & Hst & _).
        rewrite int_of_u32_small in Hst by lia.
        apply list_elem_of_fmap. exists (k, st). split; [done|].
        by apply elem_of_map_entries. }
  transitivity (id <$> seqZ 0 num_requests); [|apply list_fmap_id].
  apply list_fmap_ext. intros i k Hk%list_elem_of_lookup_2%elem_of_seqZ.
  unfold u32_of_int, UINT32_MOD, INT_MAX, id in *. apply Z.mod_small. lia.
Qed.

Lemma udp_session_any_order_witness :
  exists packets,
    server_main (fun i k => 5000 + 100 * Z.of_nat i + Z.of_nat k) 3000 2 = Some packets /\
    exists rows,
      client_main (datagrams (zip (reverse packets) [7000; 7001; 7002; 7003; 7004; 7005]))
        = Some rows /\
      row_request_id <$> rows = [0; 1].
Proof.
  destruct (udp_session_any_order (fun i k => 5000 + 100 * Z.of_nat i + Z.of_nat k) 3000 2)
    as (packets & Hsend & Hclient);
    [lia | unfold MAX_PACKET_SIZE, INT_MAX; lia | unfold INT_MAX; lia |].
  exists packets. split; [exact Hsend|].
  apply Hclient. vm_compute in Hsend. injection Hsend as <-.
  intros p. rewrite !list_elem_of_In. simpl. tauto.
Defined.

End UdpWholeSession.

(** ** The emitter on an empty request *)

Section UdpEmitterEdge.
Import Udp.

(** X8. A request of zero bytes (or of a negative size) puts no packet on
    the wire: for [bytes_to_send <= 0] the packet count is not positive, so
    [send_request] returns without sending when
    [bytes_to_send > 1 - 2 * M] and fails in the vector's constructor
    otherwise. The tracker therefore never learns of such a request. *)
Theorem send_request_nothing_to_send M clock bytes_to_send rid tr :
  0 < M <= INT_MAX -> bytes_to_send <= 0 ->
  send_request_sized M clock bytes_to_send rid tr =
  if 1 - 2 * M <? bytes_to_send then Some [] else None.
Proof.
  intros HM Hb. unfold send_request_sized.
  destruct (Z.leb_spec (bytes_to_send + M) INT_MAX) as [_|]; [|lia].
  destruct (Z.le_gt_cases 0 (bytes_to_send + M - 1)) as [Hnonneg|Hneg].
  - rewrite Z.quot_small by lia. simpl.
    by destruct (Z.ltb_spec (1 - 2 * M) bytes_to_send); [|lia].
  - replace (bytes_to_send + M - 1) with (- (1 - M - bytes_to_send)) by lia.
    rewrite Z.quot_opp_l by lia.
    rewrite Z.quot_div_nonneg by lia.
    destruct (Z.ltb_spec (1 - 2 * M) bytes_to_send).
    + rewrite Z.div_small by lia. done.
    + assert (1 <= (1 - M - bytes_to_send) / M) as Hq.
      { apply Z.div_le_lower_bound; lia. }
      by destruct (Z.ltb_spec (- ((1 - M - bytes_to_send) / M)) 0); [|lia].
Qed.

Lemma send_request_nothing_to_send_witness :
  send_request (fun k => 5000 + Z.of_nat k) 0 0 1 = Some [] /\
  send_request (fun k => 5000 + Z.of_nat k) (-2799) 0 1 = None.
Proof.
  unfold send_request. split.
  - rewrite (send_request_nothing_to_send MAX_PACKET_SIZE); [reflexivity | |lia].
    unfold MAX_PACKET_SIZE, INT_MAX. lia.
  - rewrite (send_request_nothing_to_send MAX_PACKET_SIZE); [reflexivity | |lia].
    unfold MAX_PACKET_SIZE, INT_MAX. lia.
Defined.

End UdpEmitterEdge.

(** ** The stream tracker over whole sessions *)

Section TcpSessions.
Import Tcp.

Implicit Types (s : State) (io : RequestIO) (ios : list RequestIO).
Implicit Types (conns : list (option (list RequestIO))).

(** What a request does to the state: nothing, or the record of the request
    and the counters. *)
Lemma handle_request_cases s io :
  handle_request s io = (s, false) \/
  exists continue : bool,
    handle_request s io =
    (mkState (if continue then running s else false)
       (<[int_of_u32 (request_id (header io)) :=
            mkRequestStats (timestamp (header io)) (io_header_recv_time io)
                           (io_data_complete_time io) true]> (requests s))
       (if total_requests_received s =? 0 then io_header_recv_time io else start_time s)
       (io_data_complete_time io)
       ((total_requests_received s + 1) mod UINT32_MOD)
       (if total_requests_received s =? 0
        then total_requests (header io) else expected_total_requests s),
     continue) /\
    continue =
      negb ((0 <? (if total_requests_received s =? 0
                   then total_requests (header io) else expected_total_requests s))
            && ((if total_requests_received s =? 0
                 then total_requests (header io) else expected_total_requests s)
                <=? (total_requests_received s + 1) mod UINT32_MOD)).
Proof.
  unfold handle_request.
  destruct (header_bytes io <=? 0); [by left|].
  destruct (recv_data _ _ _) as [remaining total_received].
  destruct (remaining >? 0); [by left|]. right.
  set (expected := if total_requests_received s =? 0
                   then total_requests (header io) else expected_total_requests s).
  set (received := (total_requests_received s + 1) mod UINT32_MOD).
  rewrite Z.gtb_ltb, Z.geb_leb.
  destruct ((0 <? expected) && (expected <=? received)); [by exists false|by exists true].
Qed.

Lemma handle_request_complete_inv s io :
  all_recorded_complete s -> all_recorded_complete (handle_request s io).1.
Proof.
  intros Hs. destruct (handle_request_cases s io) as [->|(c & -> & _)]; [done|].
  intros k st. cbn [fst requests].
  destruct (decide (k = int_of_u32 (request_id (header io)))) as [->|Hne].
  - rewrite lookup_insert_eq. by intros [= <-].
  - rewrite lookup_insert_ne by done. apply Hs.
Qed.

Lemma handle_request_counter_inv s io :
  running s = true -> declares_total io ->
  counter_inv s -> counter_inv (handle_request s io).1.
Proof.
  intros Hrun Hdecl Hinv.
  destruct (handle_request_cases s io) as [->|(c & -> & Hc)]; [done|].
  destruct Hinv as (Hr & He & Hsize & _ & Hpos & _ & Hlt).
  specialize (Hlt Hrun). unfold declares_total in Hdecl. unfold counter_inv.
  cbn [fst running requests total_requests_received expected_total_requests].
  pose proof (map_size_insert (int_of_u32 (request_id (header io)))
                (mkRequestStats (timestamp (header io)) (io_header_recv_time io)
                   (io_data_complete_time io) true) (requests s)) as Hins.
  assert (Z.of_nat (size (<[int_of_u32 (request_id (header io)) :=
             mkRequestStats (timestamp (header io)) (io_header_recv_time io)
               (io_data_complete_time io) true]> (requests s)))
          <= Z.of_nat (size (requests s)) + 1) as Hsz.
  { rewrite Hins. destruct (requests s !! _); simpl; lia. }
  clear Hins.
  unfold UINT32_MOD in *.
  destruct (Z.eqb_spec (total_requests_received s) 0) as [Hz|Hnz].
  - rewrite Hz in *. change ((0 + 1) mod 4294967296) with 1 in *.
    destruct (Z.ltb_spec 0 (total_requests (header io))); [|lia].
    destruct (Z.leb_spec (total_requests (header io)) 1); subst c; simpl;
      rewrite ?Hrun; repeat split; try lia; try done.
  - specialize (Hpos ltac:(lia)). specialize (Hlt ltac:(lia)).
    rewrite Z.mod_small in * by lia.
    destruct (Z.ltb_spec 0 (expected_total_requests s)); [|lia].
    destruct (Z.leb_spec (expected_total_requests s) (total_requests_received s + 1));
      subst c; simpl; rewrite ?Hrun; repeat split; try lia; try done.
Qed.

Lemma connection_loop_inv (P : State -> Prop) ios s :
  (forall s io, io ∈ ios -> running s = true -> P s -> P (handle_request s io).1) ->
  P s -> P (connection_loop s ios).
Proof.
  revert s. induction ios as [|io l IH]; intros s Hstep Hs; [done|].
  cbn [connection_loop]. destruct (running s) eqn:Hrun; [|done].
  pose proof (Hstep s io ltac:(by left) Hrun Hs) as H1.
  destruct (handle_request s io) as [s1 continue]. destruct continue; [|done].
  apply IH; [|done]. intros s' io' Hio'. apply Hstep. by right.
Qed.

Lemma accept_loop_inv (P : State -> Prop) conns s :
  (forall s ios io, Some ios ∈ conns -> io ∈ ios -> running s = true ->
     P s -> P (handle_request s io).1) ->
  P s -> P (accept_loop s conns).
Proof.
  revert s. induction conns as [|c l IH]; intros s Hstep Hs; [done|].
  cbn [accept_loop]. destruct (running s); [|done].
  apply IH; [intros s' ios io Hin; apply Hstep; by right|].
  destruct c as [ios|]; [|done].
  apply connection_loop_inv; [|done].
  intros s' io Hio. apply (Hstep s' ios io); [by left|done].
Qed.

Lemma filter_all {A} (P : A -> Prop) `{forall x, Decision (P x)} (l : list A) :
  (forall x, x ∈ l -> P x) -> filter P l = l.
Proof.
  induction l as [|x l IH]; intros Hall; [done|].
  rewrite filter_cons, decide_True by (apply Hall; by left).
  f_equal. apply IH. intros y Hy. apply Hall. by right.
Qed.

(** X9. In the stream client every recorded request is complete, so the
    [is_complete] test of [write_results] never drops an entry: after any
    session the results file has exactly one row per entry of [requests]. *)
Theorem tcp_results_all_entries conns :
  all_recorded_complete (accept_loop init conns) /\
  length (main conns) = size (requests (accept_loop init conns)).
Proof.
  assert (all_recorded_complete (accept_loop init conns)) as Hall.
  { apply (accept_loop_inv all_recorded_complete).
    - intros s ios io _ _ _. apply handle_request_complete_inv.
    - intros k st Hk. simpl in Hk. by rewrite lookup_empty in Hk. }
  split; [done|].
  unfold main, write_results. rewrite length_fmap, <- map_entries_length.
  f_equal. apply filter_all. intros [k st] Hin%elem_of_map_entries.
  by apply (Hall k st).
Qed.

Lemma counter_inv_init : counter_inv init.
Proof.
  unfold counter_inv, UINT32_MOD. simpl. rewrite map_size_empty.
  repeat split; try lia; try done.
Qed.

(** X10. The stream client counts received requests, not distinct ids: when
    every header declares a positive total, a session that the client ends
    by itself has received exactly [expected_total_requests] requests
    (repetitions of an id included), and its results file has at most that
    many rows. *)
Theorem tcp_session_ends_at_expected conns :
  (forall ios io, Some ios ∈ conns -> io ∈ ios -> declares_total io) ->
  running (accept_loop init conns) = false ->
  total_requests_received (accept_loop init conns) =
    expected_total_requests (accept_loop init conns) /\
  0 < expected_total_requests (accept_loop init conns) /\
  Z.of_nat (length (main conns)) <= expected_total_requests (accept_loop init conns).
Proof.
  intros Hdecl Hstop.
  assert (counter_inv (accept_loop init conns)) as Hinv.
  { apply (accept_loop_inv counter_inv); [|apply counter_inv_init].
    intros s ios io Hios Hio Hrun. apply handle_request_counter_inv; [done|].
    by apply (Hdecl ios). }
  destruct Hinv as (Hr & He & Hsize & Hzero & Hpos & Heq & _).
  specialize (Heq Hstop).
  assert (0 < total_requests_received (accept_loop init conns)) as Hgt.
  { destruct (decide (total_requests_received (accept_loop init conns) = 0)) as [H0|]; [|lia].
    specialize (Hzero H0). congruence. }
  split; [done|]. split; [lia|].
  unfold main, write_results. rewrite length_fmap.
  pose proof (length_filter (fun pair : Z * RequestStats => is_complete pair.2 = true)
                (map_entries (requests (accept_loop init conns)))) as Hle.
  rewrite map_entries_length in Hle. lia.
Qed.

Lemma tcp_session_ends_at_expected_witness :
  let conns :=
    [Some [mkRequestIO 24 (mkRequestHeader 1000 0 2 100) 2000 [100] 2100;
           mkRequestIO 24 (mkRequestHeader 1200 0 2 100) 2200 [60; 40] 2300;
           mkRequestIO 24 (mkRequestHeader 1400 1 2 100) 2400 [100] 2500]] in
  total_requests_received (accept_loop init conns) = 2 /\
  row_request_id <$> main conns = [0].
Proof.
  intros conns.
  destruct (tcp_session_ends_at_expected conns) as (H & _).
  - intros ios io Hios Hio. apply list_elem_of_singleton in Hios. injection Hios as ->.
    unfold declares_total, UINT32_MOD.
    repeat (apply elem_of_cons in Hio as [->|Hio]); [| | | by apply elem_of_nil in Hio];
      simpl; lia.
  - reflexivity.
  - split; [|reflexivity]. rewrite H. reflexivity.
Defined.

(** *** A whole stream session: the server's requests at the client *)

Lemma handle_request_delivered s io :
  0 < header_bytes io ->
  0 <= data_size (header io) <= INT_MAX ->
  data_size (header io) <= bytes_before_close (data_reads io) ->
  exists continue : bool,
    handle_request s io =
    (mkState (if continue then running s else false)
       (<[int_of_u32 (request_id (header io)) :=
            mkRequestStats (timestamp (header io)) (io_header_recv_time io)
                           (io_data_complete_time io) true]> (requests s))
       (if total_requests_received s =? 0 then io_header_recv_time io else start_time s)
       (io_data_complete_time io)
       ((total_requests_received s + 1) mod UINT32_MOD)
       (if total_requests_received s =? 0
        then total_requests (header io) else expected_total_requests s),
     continue) /\
    continue =
      negb ((0 <? (if total_requests_received s =? 0
                   then total_requests (header io) else expected_total_requests s))
            && ((if total_requests_received s =? 0
                 then total_requests (header io) else expected_total_requests s)
                <=? (total_requests_received s + 1) mod UINT32_MOD)).
Proof.
  intros Hhdr Hsize Hfull. unfold handle_request.
  destruct (Z.leb_spec (header_bytes io) 0); [lia|].
  rewrite (int_of_u32_small (data_size (header io))) by done.
  rewrite recv_data_spec by lia.
  destruct (Z.gtb_spec
    (data_size (header io) - Z.min (data_size (header io)) (bytes_before_close (data_reads io))) 0);
    [lia|].
  rewrite Z.gtb_ltb, Z.geb_leb.
  destruct (_ && _); [by exists false|by exists true].
Qed.

Lemma recorded_snoc clock served io reqs :
  recorded clock served reqs ->
  recorded clock (served ++ [io])
    (<[Z.of_nat (length served) := stats_of (clock (length served)) io]> reqs).
Proof.
  intros Hrec k st. destruct (decide (k = Z.of_nat (length served))) as [->|Hne].
  - rewrite lookup_insert_eq. split.
    + intros [= <-]. exists (length served), io.
      by rewrite lookup_app_r, Nat.sub_diag by lia.
    + intros (j & io' & Hj & Hk & ->). apply Nat2Z.inj in Hk as <-.
      rewrite lookup_app_r, Nat.sub_diag in Hj by lia. by injection Hj as ->.
  - rewrite lookup_insert_ne by done. rewrite (Hrec k st). split.
    + intros (j & io' & Hj & -> & ->). exists j, io'.
      split; [|done]. by apply lookup_app_l_Some.
    + intros (j & io' & Hj & -> & ->). exists j, io'. split; [|done].
      apply lookup_app_Some in Hj as [Hj|[Hge Hj]]; [done|].
      apply list_lookup_singleton_Some in Hj as [Hj _]. lia.
Qed.

Lemma tcp_connection_delivered clock bytes_to_send num n :
  0 <= bytes_to_send <= INT_MAX -> 0 < num <= INT_MAX ->
  forall served sent ios s,
    Z.of_nat (length served) + Z.of_nat n = num ->
    send_requests clock bytes_to_send num (Z.of_nat (length served)) n = Some sent ->
    Forall2 delivered sent ios ->
    running s = true ->
    total_requests_received s = Z.of_nat (length served) ->
    (served <> [] -> expected_total_requests s = num) ->
    recorded clock served (requests s) ->
    (n <> O -> running (connection_loop s ios) = false) /\
    recorded clock (served ++ ios) (requests (connection_loop s ios)).
Proof.
  intros Hb Hnum. induction n as [|n IH];
    intros served sent ios s Hlen Hsend Hdel Hrun Hcount Hexp Hrec.
  - injection Hsend as <-. apply Forall2_nil_inv_l in Hdel as ->. simpl.
    split; [done|]. by rewrite app_nil_r.
  - cbn [send_requests] in Hsend. unfold send_request in Hsend.
    destruct (Z.ltb_spec bytes_to_send 0); [lia|].
    destruct (send_requests clock bytes_to_send num (Z.of_nat (length served) + 1) n)
      as [rest|] eqn:Hrest; [|done].
    injection Hsend as <-.
    apply Forall2_cons_inv_l in Hdel
      as (io & ios' & (Hhdr & Hbytes & Hfull) & Hdel' & ->).
    cbn [fst snd] in Hhdr, Hfull.
    assert (u32_of_int bytes_to_send = bytes_to_send
            /\ u32_of_int num = num
            /\ u32_of_int (Z.of_nat (length served)) = Z.of_nat (length served))
      as (Hu1 & Hu2 & Hu3).
    { unfold u32_of_int, UINT32_MOD, INT_MAX in *. rewrite !Z.mod_small; lia. }
    rewrite Hu1, Hu2, Hu3, Nat2Z.id in Hhdr.
    destruct (handle_request_delivered s io) as (c & Hh & Hc);
      [done | by rewrite Hhdr | by rewrite Hhdr |].
    rewrite Hhdr in Hh, Hc. cbn [request_id timestamp total_requests] in Hh, Hc.
    rewrite int_of_u32_small in Hh by (unfold INT_MAX in *; lia).
    assert ((if total_requests_received s =? 0 then num else expected_total_requests s)
            = num) as Hexp'.
    { destruct (Z.eqb_spec (total_requests_received s) 0); [done|].
      apply Hexp. intros ->. simpl in Hcount. lia. }
    rewrite Hexp' in Hh, Hc. rewrite Hcount in Hh, Hc.
    rewrite Z.mod_small in Hh, Hc by (unfold UINT32_MOD, INT_MAX in *; lia).
    cbn [connection_loop]. rewrite Hrun, Hh.
    pose proof (recorded_snoc clock served io (requests s) Hrec) as Hrec'.
    destruct c.
    + assert (Z.of_nat (length served) + 1 < num) as Hmore.
      { destruct (Z.ltb_spec 0 num); [|lia].
        destruct (Z.leb_spec num (Z.of_nat (length served) + 1)); [done|lia]. }
      replace (Z.of_nat (length served) + 1)
        with (Z.of_nat (length (served ++ [io]))) in Hrest
        by (rewrite length_app; simpl; lia).
      match goal with
      | |- context [connection_loop ?s1 ios'] =>
          destruct (IH (served ++ [io]) rest ios' s1) as [Hstop Hfinal]
      end.
      * rewrite length_app. simpl. lia.
      * exact Hrest.
      * exact Hdel'.
      * exact Hrun.
      * cbn [total_requests_received]. rewrite length_app. simpl. lia.
      * intros _. done.
      * exact Hrec'.
      * split; [intros _; apply Hstop; lia|]. by rewrite <- app_assoc in Hfinal.
    + assert (n = O) as -> by
        (destruct (Z.ltb_spec 0 num); [|lia];
         destruct (Z.leb_spec num (Z.of_nat (length served) + 1)); [lia|done]).
      injection Hrest as <-. apply Forall2_nil_inv_l in Hdel' as ->.
      split; [done|]. exact Hrec'.
Qed.

Lemma send_requests_some clock bytes_to_send num n i :
  0 <= bytes_to_send ->
  exists sent,
    send_requests clock bytes_to_send num i n = Some sent /\ length sent = n.
Proof.
  intros Hb. revert i. induction n as [|n IH]; intros i; [by exists []|].
  cbn [send_requests]. unfold send_request.
  destruct (Z.ltb_spec bytes_to_send 0); [lia|].
  destruct (IH (i + 1)) as (rest & -> & Hlen).
  eexists. split; [reflexivity|]. simpl. by rewrite Hlen.
Qed.

(** X11. A whole stream session decomposes every request's latency: when
    the requests that the server's [main] sends for [num_requests > 0]
    requests of [bytes_to_send] bytes all reach the client in full on one
    connection, the client ends by itself and its results file has, for
    request ids 0, 1, ..., [num_requests - 1] in this order, one row each,
    the row of request [j] holding the time from its send to the arrival of
    its header and the time its payload took after that. *)
Theorem tcp_session_delivered clock bytes_to_send num_requests :
  0 <= bytes_to_send <= INT_MAX -> 0 < num_requests <= INT_MAX ->
  exists sent,
    server_main clock bytes_to_send num_requests = Some sent /\
    forall ios,
      Forall2 delivered sent ios ->
      running (accept_loop init [Some ios]) = false /\
      (forall row, row ∈ main [Some ios] <->
         exists j io, ios !! j = Some io /\ row = row_for clock j io) /\
      row_request_id <$> main [Some ios] = seqZ 0 num_requests.
Proof.
  intros Hb Hnum. unfold server_main.
  destruct (send_requests_some clock bytes_to_send num_requests
              (Z.to_nat num_requests) 0 ltac:(lia)) as (sent & Hsend & Hlen).
  exists sent. split; [done|]. intros ios Hdel.
  pose proof (Forall2_length _ _ _ Hdel) as Hlen'.
  destruct (tcp_connection_delivered clock bytes_to_send num_requests
              (Z.to_nat num_requests) Hb Hnum [] sent ios init) as [Hstop Hrec];
    [simpl; lia | done | done | done | done | done | |].
  { intros k st. simpl. rewrite lookup_empty. split; [done|].
    by intros (j & io & Hj & _). }
  simpl app in Hrec.
  assert (accept_loop init [Some ios] = connection_loop init ios) as Hloop.
  { cbn [accept_loop]. simpl running. by destruct (running (connection_loop init ios)). }
  unfold main. rewrite Hloop.
  set (reqs := requests (connection_loop init ios)) in *.
  assert (forall j io, ios !! j = Some io -> 0 <= Z.of_nat j < num_requests) as Hrange.
  { intros j io Hj. apply lookup_lt_Some in Hj. lia. }
  split; [apply Hstop; lia|]. split.
  - intros row. rewrite write_results_rows. split.
    + intros (k & st & (j & io & Hj & -> & ->)%Hrec & _ & ->).
      exists j, io. split; [done|].
      unfold row_of, row_for, stats_of. cbn [fst snd send_time header_recv_time data_complete_time].
      f_equal. specialize (Hrange j io Hj).
      unfold u32_of_int, UINT32_MOD, INT_MAX in *. apply Z.mod_small. lia.
    + intros (j & io & Hj & ->).
      exists (Z.of_nat j), (stats_of (clock j) io). split; [apply Hrec; by exists j, io|].
      split; [done|].
      unfold row_of, row_for, stats_of. cbn [fst snd send_time header_recv_time data_complete_time].
      f_equal. specialize (Hrange j io Hj).
      unfold u32_of_int, UINT32_MOD, INT_MAX in *. symmetry. apply Z.mod_small. lia.
  - unfold write_results. rewrite filter_all.
    2:{ intros [k st] (j & io & _ & _ & ->)%elem_of_map_entries%Hrec. done. }
    rewrite <- list_fmap_compose.
    transitivity (u32_of_int <$> (map_entries reqs).*1).
    { rewrite <- list_fmap_compose. apply list_fmap_ext. by intros _ [k st] _. }
    assert ((map_entries reqs).*1 = seqZ 0 num_requests) as ->.
    { apply (Sorted_unique Z.le).
      - apply (Sorted_fmap fst key_le Z.le); [by intros x y|apply map_entries_sorted].
      - apply Sorted_seqZ.
      - apply NoDup_Permutation; [apply map_entries_NoDup_keys|apply NoDup_seqZ|].
        intros k. rewrite elem_of_seqZ. split.
        + intros ([k' st] & -> & (j & io & Hj & -> & _)%elem_of_map_entries%Hrec)%list_elem_of_fmap.
          specialize (Hrange j io Hj). simpl. lia.
        + intros Hk.
          destruct (lookup_lt_is_Some_2 ios (Z.to_nat k) ltac:(lia)) as [io Hio].
          apply list_elem_of_fmap. exists (k, stats_of (clock (Z.to_nat k)) io).
          split; [done|]. apply elem_of_map_entries, Hrec.
          exists (Z.to_nat k), io. split; [done|]. split; [lia|done]. }
    transitivity (id <$> seqZ 0 num_requests); [|apply list_fmap_id].
    apply list_fmap_ext. intros i k Hk%list_elem_of_lookup_2%elem_of_seqZ.
    unfold u32_of_int, UINT32_MOD, INT_MAX, id in *. apply Z.mod_small. lia.
Qed.

Lemma tcp_session_delivered_witness :
  let ios := [mkRequestIO 24 (mkRequestHeader 1000 0 2 100) 1040 [60; 40] 1100;
              mkRequestIO 24 (mkRequestHeader 1500 1 2 100) 1530 [100] 1580] in
  running (accept_loop init [Some ios]) = false /\
  row_request_id <$> main [Some ios] = seqZ 0 2 /\
  main [Some ios] = [mkRow 0 40 60; mkRow 1 30 50].
Proof.
  intros ios.
  destruct (tcp_session_delivered (fun i => 1000 + 500 * Z.of_nat i) 100 2)
    as (sent & Hsend & Hclient); [unfold INT_MAX; lia | unfold INT_MAX; lia |].
  vm_compute in Hsend. injection Hsend as <-.
  destruct (Hclient ios) as (Hstop & _ & Hids).
  - repeat constructor; simpl; lia.
  - split; [exact Hstop|]. split; [exact Hids|reflexivity].
Defined.

End TcpSessions.

(** ** The trigger-driven sender and the timestamp service, whole
    connections *)

Section AwsConnections.
Import Aws.

Implicit Types (r : TriggerRead) (reads : list TriggerRead).

Lemma is_trigger_test r :
  negb (bytes_received r =? 4) || negb (strncmp (trigger_buffer r) TRIG 4 =? 0)
  = negb (is_trigger r).
Proof. unfold is_trigger. by rewrite negb_andb. Qed.

Lemma answered_triggers_sent num_requests bytes_per_request reads requests_sent :
  send_data_to_phone num_requests bytes_per_request requests_sent reads =
  (concat (request_block bytes_per_request
             <$> answered (num_requests - requests_sent) reads),
   requests_sent + Z.of_nat (length (answered (num_requests - requests_sent) reads))).
Proof.
  revert requests_sent. induction reads as [|r l IH]; intros requests_sent.
  - unfold answered. simpl. rewrite take_nil. simpl. f_equal. lia.
  - cbn [send_data_to_phone]. unfold answered. cbn [live_prefix]. unfold live.
    destruct (Z.ltb_spec requests_sent num_requests) as [Hlt|Hge]; cbn [andb].
    2:{ replace (Z.to_nat (num_requests - requests_sent)) with O by lia.
        simpl. f_equal. lia. }
    destruct (running r); cbn [andb]; [|simpl; rewrite take_nil; simpl; f_equal; lia].
    destruct (Z.leb_spec (bytes_received r) 0) as [Hle|Hgt].
    { destruct (Z.ltb_spec 0 (bytes_received r)); [lia|].
      simpl. rewrite take_nil. simpl. f_equal. lia. }
    destruct (Z.ltb_spec 0 (bytes_received r)); [|lia].
    rewrite is_trigger_test, filter_cons.
    destruct (is_trigger r) eqn:Htrig; cbn [negb].
    + rewrite decide_True by done. rewrite IH.
      replace (Z.to_nat (num_requests - requests_sent))
        with (S (Z.to_nat (num_requests - (requests_sent + 1)))) by lia.
      cbn [fmap list_fmap take concat length]. unfold answered.
      f_equal. rewrite Nat2Z.inj_succ. lia.
    + rewrite decide_False by (by rewrite not_true_iff_false). apply IH.
Qed.

(** X12. [send_data_to_phone] answers triggers one for one and nothing
    else: over any script of reads, what it sends is the header (and, for a
    positive size, the payload) of one request per token read, in order,
    for the tokens read before the connection closes or the server stops,
    and for no more of them than requests remain; [requests_sent] grows by
    the number of tokens answered. *)
Theorem send_data_answers_triggers num_requests bytes_per_request reads requests_sent :
  send_data_to_phone num_requests bytes_per_request requests_sent reads =
  (concat (request_block bytes_per_request
             <$> answered (num_requests - requests_sent) reads),
   requests_sent + Z.of_nat (length (answered (num_requests - requests_sent) reads))).
Proof.
  apply answered_triggers_sent.
Qed.

Lemma pc_response_echo (q : PcRead) :
  pc_sized q -> 0 < pc_bytes_received q ->
  pc_response (pc_response_array q) (pc_buffer q) (pc_current_time q) (pc_bytes_received q)
  = pc_echo q.
Proof.
  intros (Hbuf & Hresp & Htime & Hmax) Hpos. unfold pc_response, pc_echo, memcpy.
  rewrite take_0, Htime. cbn [app Nat.add].
  destruct (Z.leb_spec (pc_bytes_received q) 8) as [Hsmall|Hbig].
  - rewrite take_app_length'; done.
  - destruct (Z.gtb_spec (pc_bytes_received q) 8); [|lia].
    rewrite (take_app_length' (pc_current_time q)) by done.
    set (padding := take (Z.to_nat (pc_bytes_received q - 8)) (drop 8 (pc_buffer q))).
    assert (length padding = Z.to_nat (pc_bytes_received q - 8)) as Hpad.
    { unfold padding. rewrite length_take, length_drop, Hbuf. lia. }
    rewrite app_assoc. apply take_app_length'.
    rewrite length_app, Htime, Hpad. lia.
Qed.

(** X13. The timestamp service answers every request with the eight bytes
    of the timestamp, followed for a request longer than eight bytes by the
    request's own bytes from the ninth on, so that the answer has the
    request's length (eight for shorter requests); no byte of the
    uninitialised response array is ever sent. A connection is served until
    the first read that fails, closes, or finds the server stopped. *)
Theorem handle_pc_client_echo (reads : list PcRead) :
  Forall pc_sized reads ->
  handle_pc_client reads = pc_echo <$> pc_served reads /\
  Forall (fun q : PcRead => Z.of_nat (length (pc_echo q)) = Z.max 8 (pc_bytes_received q))
         (pc_served reads).
Proof.
  induction 1 as [|q l Hr Hl [IH1 IH2]]; [done|].
  cbn [handle_pc_client pc_served].
  destruct (pc_running q); cbn [andb]; [|done].
  destruct (Z.leb_spec (pc_bytes_received q) 0);
    destruct (Z.ltb_spec 0 (pc_bytes_received q)); try lia; [done|].
  rewrite pc_response_echo, IH1 by done. split; [done|].
  constructor; [|done].
  destruct Hr as (Hbuf & _ & Htime & Hmax). unfold pc_echo.
  destruct (Z.leb_spec (pc_bytes_received q) 8); [lia|].
  rewrite length_app, length_take, length_drop, Hbuf, Htime. lia.
Qed.

Lemma handle_pc_client_echo_witness :
  let junk := replicate 2048 170 in
  let request := [1; 2; 3; 4; 5; 6; 7; 8; 9; 10; 11] ++ replicate 2037 0 in
  let now := [64; 217; 12; 0; 0; 0; 0; 0] in
  handle_pc_client [mkPcRead true 11 request junk now; mkPcRead true 3 request junk now;
                    mkPcRead true 0 request junk now; mkPcRead true 11 request junk now]
  = [now ++ [9; 10; 11]; now].
Proof.
  intros junk request now.
  match goal with
  | |- handle_pc_client ?l = _ => destruct (handle_pc_client_echo l) as [-> _]
  end.
  - repeat (constructor; [repeat split; try reflexivity; simpl; lia|]). constructor.
  - reflexivity.
Defined.

(** X14. [handle_phone_client] sends nothing unless the first read returns
    exactly the twelve parameter bytes; then it sends the acknowledgement
    first and after it only what the triggers call for, with the request
    count and size decoded big-endian from bytes 0-3 and 8-11. A request
    count that decodes to zero or less yields the acknowledgement alone. *)
Theorem handle_phone_client_sends bytes_received param_bytes reads :
  let num_requests := int_of_u32 (ntohl_bytes (take 4 param_bytes)) in
  let bytes_per_request := int_of_u32 (ntohl_bytes (take 4 (drop 8 param_bytes))) in
  (bytes_received <> 12 -> handle_phone_client bytes_received param_bytes reads = []) /\
  (bytes_received = 12 ->
     handle_phone_client bytes_received param_bytes reads =
     SendAck :: (SendData <$> concat (request_block bytes_per_request
                                        <$> answered num_requests reads))) /\
  (bytes_received = 12 -> num_requests <= 0 ->
     handle_phone_client bytes_received param_bytes reads = [SendAck]).
Proof.
  cbv zeta. unfold handle_phone_client. split; [|split].
  - intros Hne. by destruct (Z.eqb_spec bytes_received 12).
  - intros ->. simpl negb. cbv iota. rewrite answered_triggers_sent.
    by rewrite Z.sub_0_r.
  - intros -> Hnum. simpl negb. cbv iota. rewrite answered_triggers_sent.
    unfold answered. replace (Z.to_nat (_ - 0)) with O by lia. done.
Qed.

Lemma ntohl_htonl u : 0 <= u < UINT32_MOD -> ntohl_bytes (htonl_bytes u) = u.
Proof.
  unfold UINT32_MOD, ntohl_bytes, htonl_bytes. intros Hu. cbn [nth].
  Z.div_mod_to_equations. lia.
Qed.

Lemma handle_phone_client_sends_witness :
  let params := htonl_bytes 2 ++ htonl_bytes 1000 ++ htonl_bytes 100 in
  let noise := mkTriggerRead true 4 [84; 82; 73; 70] 7000 in
  let trig := mkTriggerRead true 4 [84; 82; 73; 71] 8000 in
  handle_phone_client 12 params [noise; trig] =
    [SendAck; SendData (SendHeader 8000 100); SendData (SendPayload 100)] /\
  handle_phone_client 11 params [noise; trig] = [].
Proof.
  intros params noise trig.
  destruct (handle_phone_client_sends 12 params [noise; trig]) as (_ & H12 & _).
  destruct (handle_phone_client_sends 11 params [noise; trig]) as (H11 & _).
  split; [rewrite H12 by done; reflexivity | apply H11; lia].
Defined.

(** X15. The header's size field round-trips: the twelve header bytes end
    with the big-endian encoding of [bytes_per_request], which the server's
    own [ntohl] decoding (as applied to the connection parameters) maps back
    to [bytes_per_request]. *)
Theorem header_size_round_trip time_bits bytes_per_request :
  0 <= bytes_per_request <= INT_MAX ->
  length (header_wire time_bits bytes_per_request) = 12%nat /\
  int_of_u32 (ntohl_bytes (drop 8 (header_wire time_bits bytes_per_request)))
  = bytes_per_request.
Proof.
  intros Hb. split; [done|].
  unfold header_wire. rewrite drop_app_length' by done.
  assert (u32_of_int bytes_per_request = bytes_per_request) as ->.
  { unfold u32_of_int, UINT32_MOD, INT_MAX in *. apply Z.mod_small. lia. }
  rewrite ntohl_htonl by (unfold UINT32_MOD, INT_MAX in *; lia).
  by apply int_of_u32_small.
Qed.

Lemma header_size_round_trip_witness :
  header_wire 72623859790382856 3000 =
    [1; 2; 3; 4; 5; 6; 7; 8; 0; 0; 11; 184] /\
  int_of_u32 (ntohl_bytes (drop 8 (header_wire 72623859790382856 3000))) = 3000.
Proof.
  split; [reflexivity|].
  apply (header_size_round_trip 72623859790382856 3000). unfold INT_MAX. lia.
Defined.

End AwsConnections.

(** ** Further properties of the two trackers *)

Section TrackerEdges.

(** X16. On arrivals that are well formed and name requests below the total
    they declare, the client's completion check is exactly the session
    completion condition: the arrival that makes every declared request
    complete is the one that ends the loop, and no other arrival does. *)
Theorem in_session_terminates_iff_complete arrivals p t :
  Forall in_session (arrivals ++ [(p, t)]) ->
  Udp.running (Udp.observe_all Udp.init arrivals) = true ->
  Udp.running (Udp.observe_all Udp.init (arrivals ++ [(p, t)])) = false <->
  Udp.session_complete (Udp.observe_all Udp.init (arrivals ++ [(p, t)])).
Proof.
  intros Hwf Hrun.
  pose proof (in_session_guard_implied _ Hwf) as Hguard.
  rewrite observe_all_snoc in *. split.
  - intros Hstop. destruct (observe_stops _ p t Hrun Hstop) as (Hpos & _ & Hall).
    apply session_complete_spec. rewrite Hall.
    by destruct (Z.ltb_spec 0 (Udp.main_total_requests
                                 (Udp.observe (Udp.observe_all Udp.init arrivals) p t)));
      [|lia].
  - intros Hc. pose proof (Hguard Hc) as Hhigh.
    apply session_complete_spec, andb_true_iff in Hc as [Hpos%Z.ltb_lt Hall].
    by apply observe_stops_when.
Qed.

Lemma in_session_terminates_iff_complete_witness :
  let arrivals := [(Udp.mkPacket 1000 1 2 0 1 200, 2000)] in
  Udp.running (Udp.observe_all Udp.init (arrivals ++ [(Udp.mkPacket 1001 0 2 0 1 1400, 2001)]))
    = false <->
  Udp.session_complete
    (Udp.observe_all Udp.init (arrivals ++ [(Udp.mkPacket 1001 0 2 0 1 1400, 2001)])).
Proof.
  intros arrivals.
  apply (in_session_terminates_iff_complete arrivals (Udp.mkPacket 1001 0 2 0 1 1400) 2001).
  - repeat constructor; simpl; unfold UINT64_MOD, UINT32_MOD; lia.
  - reflexivity.
Defined.

(** X17. A stream header that declares more than [INT_MAX] payload bytes is
    recorded as a complete request at once: the declared size is read into
    an [int], the payload loop does not run, and no payload byte is read,
    whatever the transport would deliver. *)
Theorem oversized_request_recorded_unread s io :
  0 < Tcp.header_bytes io ->
  INT_MAX < Tcp.data_size (Tcp.header io) < UINT32_MOD ->
  Tcp.recv_data (Tcp.data_reads io) (int_of_u32 (Tcp.data_size (Tcp.header io))) 0
    = (int_of_u32 (Tcp.data_size (Tcp.header io)), 0) /\
  Tcp.requests (Tcp.handle_request s io).1 !! int_of_u32 (Tcp.request_id (Tcp.header io)) =
  Some (stats_of (Tcp.timestamp (Tcp.header io)) io).
Proof.
  intros Hhdr Hsize. split; [|by apply handle_request_oversized].
  assert (int_of_u32 (Tcp.data_size (Tcp.header io)) < 0) as Hneg.
  { unfold int_of_u32. unfold UINT32_MOD, INT_MAX in *.
    destruct (Z.leb_spec (Tcp.data_size (Tcp.header io)) 2147483647); lia. }
  destruct (Tcp.data_reads io); simpl;
    by destruct (Z.gtb_spec (int_of_u32 (Tcp.data_size (Tcp.header io))) 0); [lia|].
Qed.

Lemma oversized_request_recorded_unread_witness :
  let io := Tcp.mkRequestIO 24 (Tcp.mkRequestHeader 1000 0 1 3000000000) 2000 [1400; 1400] 2001 in
  Tcp.requests (Tcp.handle_request Tcp.init io).1 !! 0 = Some (stats_of 1000 io) /\
  Tcp.main [Some [io]] = [Tcp.mkRow 0 1000 1].
Proof.
  intros io. split; [|reflexivity].
  apply (oversized_request_recorded_unread Tcp.init io).
  - simpl. lia.
  - simpl. unfold INT_MAX, UINT32_MOD. lia.
Defined.

End TrackerEdges.

(** ** What the rows of the datagram client measure *)

Section UdpRowMeaning.
Import Udp.

Implicit Types (s : State) (st : RequestStats) (arrivals : list (Packet * Z)).

Lemma record_all_last_recv arrivals st :
  last_packet_recv_time (record_all st arrivals) =
  from_option snd (last_packet_recv_time st) (last arrivals).
Proof.
  revert st. induction arrivals as [|[p t] l IH]; intros st; [done|].
  change (record_all st ((p, t) :: l)) with (record_all (record_packet st p t) l).
  rewrite IH, last_cons. by destruct (last l).
Qed.

Lemma record_all_first_recv arrivals st :
  first_packet_recv_time (record_all st arrivals) =
  from_option snd (first_packet_recv_time st)
              (last (filter (fun a => packet_id a.1 = 0) arrivals)).
Proof.
  revert st. induction arrivals as [|[p t] l IH]; intros st; [done|].
  change (record_all st ((p, t) :: l)) with (record_all (record_packet st p t) l).
  rewrite IH, filter_cons. unfold record_packet at 1. cbn [first_packet_recv_time fst].
  destruct (Z.eqb_spec (packet_id p) 0) as [H0|Hne].
  - rewrite decide_True by done. rewrite last_cons. by destruct (last _).
  - by rewrite decide_False.
Qed.

Lemma record_all_first_send arrivals st :
  first_packet_send_time (record_all st arrivals) =
  from_option (fun a => timestamp a.1) (first_packet_send_time st)
              (last (filter (fun a => packet_id a.1 = 0) arrivals)).
Proof.
  revert st. induction arrivals as [|[p t] l IH]; intros st; [done|].
  change (record_all st ((p, t) :: l)) with (record_all (record_packet st p t) l).
  rewrite IH, filter_cons. unfold record_packet at 1. cbn [first_packet_send_time fst].
  destruct (Z.eqb_spec (packet_id p) 0) as [H0|Hne].
  - rewrite decide_True by done. rewrite last_cons. by destruct (last _).
  - by rewrite decide_False.
Qed.

Lemma observe_all_row_times s arrivals r a :
  requests s !! int_of_u32 r = None ->
  last (request_arrivals r arrivals) = Some a ->
  let first := last (filter (fun a => packet_id a.1 = 0) (request_arrivals r arrivals)) in
  let first_send := from_option (fun a => timestamp a.1) 0 first in
  let first_recv := from_option snd 0 first in
  exists st,
    requests (observe_all s arrivals) !! int_of_u32 r = Some st /\
    last_packet_recv_time st = a.2 /\
    first_packet_send_time st = first_send /\
    first_packet_recv_time st = first_recv /\
    row_of (int_of_u32 r, st) =
      mkRow (u32_of_int (int_of_u32 r)) (sub_u64 first_recv first_send)
            (sub_u64 a.2 first_recv).
Proof.
  intros Hfresh Hlast. cbv zeta.
  rewrite observe_all_lookup. fold (request_arrivals r arrivals). rewrite Hfresh.
  destruct (request_arrivals r arrivals) as [|a0 mine] eqn:E; [done|].
  cbn [default]. eexists. split; [reflexivity|].
  assert (last_packet_recv_time (record_all RequestStats0 (a0 :: mine)) = a.2) as H1.
  { by rewrite record_all_last_recv, Hlast. }
  pose proof (record_all_first_send (a0 :: mine) RequestStats0) as H2.
  pose proof (record_all_first_recv (a0 :: mine) RequestStats0) as H3.
  cbn [first_packet_send_time first_packet_recv_time RequestStats0] in H2, H3.
  split; [done|]. split; [done|]. split; [done|].
  unfold row_of. cbn [fst snd]. by rewrite H1, H2, H3.
Qed.

(** X18. What a row of the datagram client measures: for a request not
    recorded before, the record left by the receive loop holds as
    [last_packet_recv_time] the receive time of the latest of the request's
    arrivals that the loop processed (those up to the one that cleared
    [running]), and as first-fragment send and receive times the timestamp
    and receive time of the latest processed arrival with index 0 (both 0
    when no index-0 fragment has been processed); the row's two columns are
    the differences of these, in [uint64_t] arithmetic. *)
Theorem udp_row_measures s arrivals r a :
  requests s !! int_of_u32 r = None ->
  last (request_arrivals r (processed s arrivals)) = Some a ->
  let first := last (filter (fun a => packet_id a.1 = 0)
                            (request_arrivals r (processed s arrivals))) in
  let first_send := from_option (fun a => timestamp a.1) 0 first in
  let first_recv := from_option snd 0 first in
  exists st,
    requests (receive_loop s (datagrams arrivals)).1 !! int_of_u32 r = Some st /\
    last_packet_recv_time st = a.2 /\
    first_packet_send_time st = first_send /\
    first_packet_recv_time st = first_recv /\
    row_of (int_of_u32 r, st) =
      mkRow (u32_of_int (int_of_u32 r)) (sub_u64 first_recv first_send)
            (sub_u64 a.2 first_recv).
Proof.
  intros Hfresh Hlast. rewrite receive_loop_processed.
  by apply observe_all_row_times.
Qed.

Lemma udp_row_measures_witness :
  let arrivals :=
    [(mkPacket 1000 0 2 0 1 1400, 2000); (mkPacket 1001 1 2 0 1 1000, 2200);
     (mkPacket 1002 0 2 0 1 1400, 2400); (mkPacket 1003 1 2 0 1 1000, 2600)] in
  processed init arrivals = [(mkPacket 1000 0 2 0 1 1400, 2000);
                             (mkPacket 1001 1 2 0 1 1000, 2200)] /\
  client_main (datagrams arrivals) = Some [mkRow 0 (2000 - 1000) (2200 - 2000)] /\
  exists st,
    requests (receive_loop init (datagrams arrivals)).1 !! 0 = Some st /\
    last_packet_recv_time st = 2200 /\ first_packet_recv_time st = 2000.
Proof.
  intros arrivals. split; [reflexivity|]. split; [reflexivity|].
  destruct (udp_row_measures init arrivals 0 (mkPacket 1001 1 2 0 1 1000, 2200))
    as (st & Hst & Hlast & _ & Hfirst & _); [reflexivity | reflexivity |].
  exists st. split; [exact Hst|]. split; [exact Hlast|exact Hfirst].
Defined.

End UdpRowMeaning.
